(** * Sales analysis pipeline (Project_1.py): a shallow embedding

    The script loads a CSV of sales transactions with pandas, cleans it,
    aggregates [Total_Sales_INR] by day, month, quarter and product
    category, and saves charts with matplotlib.  The pandas and matplotlib
    calls the script makes are modelled by executable functions over lists;
    amounts are exact rationals ([Q], compared with [==]), so that statements
    about sums are statements of exact arithmetic. *)

From Stdlib Require Import ZArith QArith Qround Qabs Lia Ascii DecimalString Sorted.
From Stdlib Require Import DecimalZ DecimalPos OrderedTypeEx Permutation Lqa.
From stdpp Require Import base gmap list strings.

Local Open Scope Z_scope.

(** ** Calendar

    pandas stores a parsed date as a [datetime64[ns]] value: nanoseconds since
    1970-01-01T00:00.  The resampling rules ['D'], ['M'] and ['Q'] only look
    at the calendar day, month and quarter the instant falls in. *)

Module Calendar.

Definition NS_PER_DAY : Z := 86400000000000.

(** Days since the epoch of the day an instant falls in (floor). *)
Definition day_of (ts : Z) : Z := ts / NS_PER_DAY.

(** Proleptic Gregorian (year, month, day) of a day number. *)
Definition civil_from_days (days : Z) : Z * Z * Z :=
  let z := days + 719468 in
  let era := z / 146097 in
  let doe := z - era * 146097 in
  let yoe := (doe - doe / 1460 + doe / 36524 - doe / 146096) / 365 in
  let doy := doe - (365 * yoe + yoe / 4 - yoe / 100) in
  let mp := (5 * doy + 2) / 153 in
  let d := doy - (153 * mp + 2) / 5 + 1 in
  let m := if mp <? 10 then mp + 3 else mp - 9 in
  let y := yoe + era * 400 in
  (if m <=? 2 then y + 1 else y, m, d).

(** Day number of a calendar date, and the instant at its midnight. *)
Definition days_from_civil (y m d : Z) : Z :=
  let y' := if m <=? 2 then y - 1 else y in
  let era := y' / 400 in
  let yoe := y' - era * 400 in
  let mp := if m <=? 2 then m + 9 else m - 3 in
  let doy := (153 * mp + 2) / 5 + d - 1 in
  let doe := yoe * 365 + yoe / 4 - yoe / 100 + doy in
  era * 146097 + doe - 719468.

Definition midnight (y m d : Z) : Z := days_from_civil y m d * NS_PER_DAY.

(** The month [civil_from_days] gives to a day, from the day's position
    [doe] in its 400-year era. *)
Definition month_of_doe (doe : Z) : Z :=
  let yoe := (doe - doe / 1460 + doe / 36524 - doe / 146096) / 365 in
  let doy := doe - (365 * yoe + yoe / 4 - yoe / 100) in
  let mp := (5 * doy + 2) / 153 in
  if mp <? 10 then mp + 3 else mp - 9.

Definition year_of (ts : Z) : Z := (civil_from_days (day_of ts)).1.1.
Definition month_of (ts : Z) : Z := (civil_from_days (day_of ts)).1.2.

(** Bucket keys.  A month bucket is numbered [12 * year + (month - 1)], a
    quarter bucket [4 * year + (month - 1) / 3]; consecutive buckets have
    consecutive numbers. *)
Definition month_key (ts : Z) : Z := 12 * year_of ts + (month_of ts - 1).
Definition quarter_key (ts : Z) : Z := 4 * year_of ts + (month_of ts - 1) / 3.

End Calendar.

(** ** Cells, rows and the data frame *)

(** A [Date] cell of the CSV: text that [pd.to_datetime] turns into an
    instant when it converts the column, an empty cell, or text it
    rejects. *)
Inductive date_cell :=
  | DateOk (ts : Z)
  | DateBlank
  | DateBad (s : string).

(** A [Total_Sales_INR] cell of the CSV: a number, or text that is not one
    (the empty cell is [NonNumeric ""]).  A number is held as its exact
    value: the width pandas gives the column ([int64] or [float64]) and the
    rounding or wrap-around that comes with it are not represented. *)
Inductive amount_cell :=
  | Numeric (q : Q)
  | NonNumeric (s : string).

(** One line of the CSV file.  An empty [Product_Category] cell is read as a
    missing value. *)
Record CsvRow := mkCsvRow {
  csv_Date : date_cell;
  csv_Product_Category : option string;
  csv_Total_Sales_INR : amount_cell
}.

(** One row of [df] after the conversions of lines 24 and 26: [None] is
    [NaT] in the date column and [NaN] in the amount column. *)
Record Row := mkRow {
  Date : option Z;
  Product_Category : option string;
  Total_Sales_INR : option Q
}.

Inductive exn :=
  | FileNotFoundError
  | UnicodeDecodeError
  | ValueError (msg : string).

Inductive outcome (A : Type) :=
  | Ret (a : A)
  | SysExit (code : Z)
  | Raise (e : exn).
Arguments Ret {A} a.
Arguments SysExit {A} code.
Arguments Raise {A} e.

(** The value of a date cell that does not fail the conversion. *)
Definition date_value (c : date_cell) : option Z :=
  match c with
  | DateOk ts => Some ts
  | _ => None
  end.

(** [pd.to_datetime(df['Date'])] with the default [errors='raise']:
    empty cells become [NaT], one unparsable cell fails the whole call. *)
Fixpoint to_datetime (col : list date_cell) : outcome (list (option Z)) :=
  match col with
  | [] => Ret []
  | DateBad s :: _ => Raise (ValueError s)
  | c :: col' =>
      match to_datetime col' with
      | Ret ds => Ret (date_value c :: ds)
      | SysExit n => SysExit n
      | Raise e => Raise e
      end
  end.

(** [pd.to_numeric(..., errors='coerce')] on one cell. *)
Definition to_numeric (c : amount_cell) : option Q :=
  match c with
  | Numeric q => Some q
  | NonNumeric _ => None
  end.

Definition is_numeric (r : Row) : bool :=
  match Total_Sales_INR r with Some _ => true | None => false end.

(** [df.dropna(subset=['Total_Sales_INR'])]. *)
Definition dropna (df : list Row) : list Row := List.filter is_numeric df.

Definition mk_rows (raw : list CsvRow) (dates : list (option Z)) : list Row :=
  zip_with (fun c d => mkRow d (csv_Product_Category c) (to_numeric (csv_Total_Sales_INR c)))
           raw dates.

(** Lines 24 to 32: the frame every aggregate is computed from. *)
Definition prepare (raw : list CsvRow) : outcome (list Row) :=
  match to_datetime (csv_Date <$> raw) with
  | Ret dates => Ret (dropna (mk_rows raw dates))
  | SysExit n => SysExit n
  | Raise e => Raise e
  end.

(** ** Sums *)

(** The value a row contributes to a sum; [Series.sum] skips [NaN]. *)
Definition amount (r : Row) : Q :=
  match Total_Sales_INR r with Some q => q | None => 0%Q end.

(** Sums are exact sums of rationals. *)
Definition Qsum (l : list Q) : Q := fold_left Qplus l 0%Q.
Arguments Qsum : simpl never.

(** [df['Total_Sales_INR'].sum()]. *)
Definition grand_total (df : list Row) : Q := Qsum (amount <$> df).

(** ** Resampling *)

Definition in_bucket (key : Z -> Z) (k : Z) (r : Row) : bool :=
  match Date r with
  | Some ts => key ts =? k
  | None => false
  end.

Definition bucket_sum (key : Z -> Z) (k : Z) (df : list Row) : Q :=
  Qsum (amount <$> List.filter (in_bucket key k) df).

(** What row [r] adds to bucket [k]. *)
Definition contribution (key : Z -> Z) (k : Z) (r : Row) : Q :=
  if in_bucket key k r then amount r else 0%Q.

Definition bucket_keys (key : Z -> Z) (df : list Row) : list Z :=
  omap (fun r => key <$> Date r) df.

(** [series.resample(rule).sum()]: rows without a date are left out, the
    buckets run without gaps from the bucket of the earliest date to the
    bucket of the latest, in ascending order, and an empty bucket sums to 0.
    The bucket functions are monotone in the instant, so the first and last
    buckets are the least and greatest keys.  A frame without any dated row
    is given the empty series, and no bucket is refused for lying beyond the
    range of [datetime64[ns]]: see [regular_frame] for the frames on which
    pandas does the same. *)
Definition resample_sum (key : Z -> Z) (df : list Row) : list (Z * Q) :=
  match bucket_keys key df with
  | [] => []
  | k0 :: ks =>
      let lo := foldr Z.min k0 ks in
      let hi := foldr Z.max k0 ks in
      (fun k => (k, bucket_sum key k df)) <$> seqZ lo (hi - lo + 1)
  end.

Definition daily_sales (df : list Row) : list (Z * Q) :=
  resample_sum Calendar.day_of df.
Definition monthly_sales (df : list Row) : list (Z * Q) :=
  resample_sum Calendar.month_key df.
Definition quarterly_sales (df : list Row) : list (Z * Q) :=
  resample_sum Calendar.quarter_key df.

(** ** Labels and number formats *)

Module Format.

Definition show_Z (z : Z) : string := NilZero.string_of_int (Z.to_int z).

Fixpoint zeros (n : nat) : string :=
  match n with
  | O => ""
  | S n' => "0" +:+ zeros n'
  end.

Definition zero_pad (width : nat) (s : string) : string :=
  zeros (width - String.length s) +:+ s.

(** [index.strftime('%Y-%m')] on the month-end label of a month bucket. *)
Definition strftime_Ym (month_key : Z) : string :=
  zero_pad 4 (show_Z (month_key / 12)) +:+ "-" +:+ zero_pad 2 (show_Z (month_key mod 12 + 1)).

(** [index.to_period('Q').astype(str)] on the quarter-end label of a quarter
    bucket: pandas prints a quarterly period as the year, the letter Q and the
    quarter number. *)
Definition period_Q_str (quarter_key : Z) : string :=
  show_Z (quarter_key / 4) +:+ "Q" +:+ show_Z (quarter_key mod 4 + 1).

(** Rounding to the nearest integer, ties to even, as the [f] presentation
    type does on an exactly representable value. *)
Definition round_half_even (q : Q) : Z :=
  let f := Qfloor q in
  match (q - inject_Z f ?= 1 # 2)%Q with
  | Lt => f
  | Gt => f + 1
  | Eq => if Z.even f then f else f + 1
  end.

Fixpoint group3 (rev_digits : list ascii) : list ascii :=
  match rev_digits with
  | a :: b :: c :: ((_ :: _) as rest) => a :: b :: c :: ","%char :: group3 rest
  | _ => rev_digits
  end.

Definition thousands (digits : string) : string :=
  Strings.String.string_of_list_ascii (rev (group3 (rev (Strings.String.list_ascii_of_string digits)))).

Definition sign_of (q : Q) : string :=
  match (q ?= 0)%Q with Lt => "-" | _ => "" end.

(** [f'{x:,.0f}']. *)
Definition fmt_comma_0f (q : Q) : string :=
  sign_of q +:+ thousands (show_Z (round_half_even (Qabs q))).

(** ['%1.1f' % x]. *)
Definition fmt_1f (q : Q) : string :=
  let t := round_half_even (Qabs q * 10) in
  sign_of q +:+ show_Z (t / 10) +:+ "." +:+ show_Z (t mod 10).

Definition is_digit (a : ascii) : bool :=
  (48 <=? nat_of_ascii a)%nat && (nat_of_ascii a <=? 57)%nat.

(** The shapes [YYYY-MM] and [YYYYQn] of a label. *)
Definition is_YYYY_MM (s : string) : bool :=
  match Strings.String.list_ascii_of_string s with
  | [y1; y2; y3; y4; sep; m1; m2] =>
      forallb is_digit [y1; y2; y3; y4; m1; m2] && Ascii.eqb sep "-"
  | _ => false
  end.

Definition is_YYYYQn (s : string) : bool :=
  match Strings.String.list_ascii_of_string s with
  | [y1; y2; y3; y4; sep; n] =>
      forallb is_digit [y1; y2; y3; y4] && Ascii.eqb sep "Q"
      && existsb (Ascii.eqb n) ["1"; "2"; "3"; "4"]%char
  | _ => false
  end.

(** The years a [datetime64[ns]] value can fall in. *)
Definition MIN_YEAR : Z := 1677.
Definition MAX_YEAR : Z := 2262.

End Format.

(** ** Aggregation by category *)

(** One step of the grouped sum: the groups are kept in ascending key
    order, as [groupby] (with its default [sort=True]) returns them. *)
Fixpoint add_to_group (c : string) (q : Q) (g : list (string * Q)) : list (string * Q) :=
  match g with
  | [] => [(c, q)]
  | (c', s) :: g' =>
      match String.compare c c' with
      | Eq => (c', (s + q)%Q) :: g'
      | Lt => (c, q) :: g
      | Gt => (c', s) :: add_to_group c q g'
      end
  end.

(** [df.groupby('Product_Category')['Total_Sales_INR'].sum()]: rows whose
    category is missing belong to no group. *)
Definition groupby_sum (df : list Row) : list (string * Q) :=
  fold_left (fun g r =>
               match Product_Category r with
               | Some c => add_to_group c (amount r) g
               | None => g
               end) df [].

Definition Qltb (x y : Q) : bool := negb (Qle_bool y x).

Fixpoint insert_desc (x : string * Q) (l : list (string * Q)) : list (string * Q) :=
  match l with
  | [] => [x]
  | y :: l' => if Qltb x.2 y.2 then y :: insert_desc x l' else x :: l
  end.

(** [.sort_values(ascending=False)].  Entries with equal sums stay in group
    order; no statement below depends on how ties are ordered. *)
Definition sort_values_desc (s : list (string * Q)) : list (string * Q) :=
  foldr insert_desc [] s.

Definition category_sales (df : list Row) : list (string * Q) :=
  sort_values_desc (groupby_sum df).

(** Results of float division: a finite value, an infinity or [NaN]. *)
Inductive fval :=
  | Fin (q : Q)
  | PInf
  | NInf
  | NaN.

Definition fdiv (a b : Q) : fval :=
  if Qeq_bool b 0 then
    match (a ?= 0)%Q with Eq => NaN | Lt => NInf | Gt => PInf end
  else Fin (a / b)%Q.

Definition fscale (x : fval) (c : Q) : fval :=
  match x with
  | Fin q => Fin (q * c)%Q
  | other => other
  end.

Definition fadd (x y : fval) : fval :=
  match x, y with
  | NaN, _ | _, NaN => NaN
  | Fin a, Fin b => Fin (a + b)%Q
  | PInf, NInf | NInf, PInf => NaN
  | PInf, _ | _, PInf => PInf
  | NInf, _ | _, NInf => NInf
  end.

Definition fsum (l : list fval) : fval := fold_left fadd l (Fin 0).

(** Equality of float results, exact on the finite ones. *)
Definition feq (x y : fval) : Prop :=
  match x, y with
  | Fin a, Fin b => (a == b)%Q
  | PInf, PInf | NInf, NInf => True
  | _, _ => False
  end.

(** [(category_sales / category_sales.sum()) * 100]. *)
Definition category_share (cs : list (string * Q)) : list (string * fval) :=
  let total := Qsum cs.*2 in
  (fun '(c, v) => (c, fscale (fdiv v total) 100)) <$> cs.

(** ** Charts

    A saved figure is represented by what it plots. *)

Inductive Chart :=
  | TimeLineChart (title : string) (points : list (Z * Q))
  | LabelLineChart (title : string) (points : list (string * Q))
  | BarChart (title : string) (bars : list (string * Q * string))
  | PieChart (title : string) (wedges : list (string * string)).

(** Line 72 and line 88: the bucket index replaced by its text. *)
Definition monthly_labelled (df : list Row) : list (string * Q) :=
  prod_map Format.strftime_Ym id <$> monthly_sales df.
Definition quarterly_labelled (df : list Row) : list (string * Q) :=
  prod_map Format.period_Q_str id <$> quarterly_sales df.

(** Lines 113 to 124: one bar per category in the order of
    [category_sales], each with its value printed above it. *)
Definition bar_chart (cs : list (string * Q)) : list (string * Q * string) :=
  (fun '(c, v) => (c, v, Format.fmt_comma_0f v)) <$> cs.

Definition is_negative (x : fval) : bool :=
  match x with
  | Fin q => Qltb q 0
  | NInf => true
  | _ => false
  end.

Definition wedge_label (total : fval) (x : fval) : option string :=
  match x, total with
  | Fin q, Fin t =>
      if Qeq_bool t 0 then None
      else Some (Format.fmt_1f (100 * (q / t)) +:+ "%")
  | _, _ => None
  end.

(** [plt.pie(x, labels=..., autopct='%1.1f%%')]: negative sizes are
    rejected; the sizes are divided by their sum and each wedge is annotated
    with a hundred times its fraction.  Sizes whose fractions are not
    finite numbers cannot be drawn; the message of that failure only names
    the condition.  The fractions and the percentages are exact here, where
    matplotlib computes them in [float32]. *)
Definition pie (shares : list (string * fval)) : outcome (list (string * string)) :=
  if existsb is_negative shares.*2
  then Raise (ValueError "Wedge sizes 'x' must be non negative values")
  else
    let sx := fsum shares.*2 in
    match mapM (fun '(c, x) => pair c <$> wedge_label sx x) shares with
    | Some wedges => Ret wedges
    | None => Raise (ValueError "wedge fractions are not finite")
    end.

(** ** The process and its environment *)

Inductive File :=
  | Csv (rows : list CsvRow)
  | Png (chart : Chart).

Inductive Event :=
  | Open (name : string)
  | Print (line : string)
  | Save (name : string).

(** The working directory and what the process has done so far. *)
Record World := mkWorld {
  fs : gmap string File;
  trace : list Event
}.

Definition M (A : Type) : Type := World -> outcome A * World.

#[global] Instance M_ret : MRet M := fun A a w => (Ret a, w).

(** Sequencing: a [sys.exit] or an uncaught exception ends the run. *)
#[global] Instance M_bind : MBind M := fun A B k m w =>
  match m w with
  | (Ret a, w') => k a w'
  | (SysExit n, w') => (SysExit n, w')
  | (Raise e, w') => (Raise e, w')
  end.

Definition lift {A} (o : outcome A) : M A := fun w => (o, w).

Definition emit (e : Event) (w : World) : World :=
  mkWorld (fs w) (trace w ++ [e]).

Definition print (line : string) : M unit := fun w => (Ret tt, emit (Print line) w).

Definition sys_exit {A} (code : Z) : M A := fun w => (SysExit code, w).

(** [pd.read_csv(name)]. *)
Definition read_csv (name : string) : M (list CsvRow) :=
  fun w =>
    let w' := emit (Open name) w in
    match fs w !! name with
    | None => (Raise FileNotFoundError, w')
    | Some (Csv rows) => (Ret rows, w')
    | Some (Png _) => (Raise UnicodeDecodeError, w')
    end.

(** [plt.savefig(name)] of a figure showing [chart]. *)
Definition savefig (name : string) (chart : Chart) : M unit :=
  fun w => (Ret tt, mkWorld (<[name := Png chart]> (fs w)) (trace w ++ [Save name])).

(** [try: m except FileNotFoundError: handler]. *)
Definition except_FileNotFoundError {A} (m handler : M A) : M A :=
  fun w =>
    match m w with
    | (Raise FileNotFoundError, w') => handler w'
    | r => r
    end.

Definition run_sales_analysis (file_path : string) : M unit :=
  raw ← except_FileNotFoundError
           (read_csv "amazon_sales_2025_INR.csv")
           (print ("Error: The file '" +:+ file_path +:+ "' was not found.") ;;
            sys_exit 1) ;
  df ← lift (prepare raw) ;
  savefig "daily_sales_line_chart.png"
    (TimeLineChart "Daily Total Sales (INR) Over Time" (daily_sales df)) ;;
  print "Chart saved: daily_sales_line_chart.png" ;;
  savefig "monthly_sales_line_chart.png"
    (LabelLineChart "Monthly Total Sales (INR)" (monthly_labelled df)) ;;
  print "Chart saved: monthly_sales_line_chart.png" ;;
  savefig "quarterly_sales_line_chart.png"
    (LabelLineChart "Quarterly Total Sales (INR)" (quarterly_labelled df)) ;;
  print "Chart saved: quarterly_sales_line_chart.png" ;;
  savefig "category_sales_bar_chart.png"
    (BarChart "Total Sales (INR) by Product Category" (bar_chart (category_sales df))) ;;
  print "Chart saved: category_sales_bar_chart.png" ;;
  wedges ← lift (pie (category_share (category_sales df))) ;
  savefig "category_sales_pie_chart.png"
    (PieChart "Total Sales Share by Product Category" wedges) ;;
  print "Chart saved: category_sales_pie_chart.png".

(** The names of the files a trace saved, in order. *)
Definition saved (t : list Event) : list string :=
  omap (fun e => match e with Save n => Some n | _ => None end) t.
Definition opened (t : list Event) : list string :=
  omap (fun e => match e with Open n => Some n | _ => None end) t.
Definition printed (t : list Event) : list string :=
  omap (fun e => match e with Print s => Some s | _ => None end) t.

(** Lines 150 to 154: the script run as a program. *)
Definition main : M unit :=
  run_sales_analysis "amazon_sales_2025_INR.csv" ;;
  print (String "010"%char
           " All charts have been generated and saved as PNG files in the current directory.") ;;
  print "Review the 'analysis_summary.md' file for the discussion and findings.".

(** The sum of the values of an aggregate. *)
Definition series_sum {K : Type} (s : list (K * Q)) : Q := Qsum s.*2.


(** The row of [df] a line of the file becomes when every date parses. *)
Definition row_of (c : CsvRow) : Row :=
  mkRow (date_value (csv_Date c))
        (csv_Product_Category c)
        (to_numeric (csv_Total_Sales_INR c)).

Definition date_parses (c : date_cell) : Prop :=
  match c with DateBad _ => False | _ => True end.

(** Values in descending order. *)
Definition descending (s : list (string * Q)) : Prop :=
  StronglySorted (fun x y => (y.2 <= x.2)%Q) s.

(** What it means for [s] to be the resampling of [df] with every bucket
    present: the keys are in ascending order without repetition, they are
    the keys lying between the keys of two dated rows, every value is the sum
    of its bucket, and a bucket no row falls in holds 0. *)
Definition zero_filled (key : Z -> Z) (df : list Row) (s : list (Z * Q)) : Prop :=
  StronglySorted Z.lt s.*1
  /\ (forall k, k ∈ s.*1 <->
        exists r1 r2 t1 t2, r1 ∈ df /\ r2 ∈ df /\ Date r1 = Some t1 /\ Date r2 = Some t2
                            /\ key t1 <= k <= key t2)
  /\ (forall k v, (k, v) ∈ s ->
        v = bucket_sum key k df
        /\ ((forall r t, r ∈ df -> Date r = Some t -> key t <> k) -> v = 0%Q)).

(** [f] holds at the [n] integers from [z] on. *)
Fixpoint check_from (f : Z -> bool) (n : nat) (z : Z) : bool :=
  match n with
  | O => true
  | S n' => f z && check_from f n' (z + 1)
  end.

(** ** Fixtures *)

Definition INPUT : string := "amazon_sales_2025_INR.csv".

Definition jan15 : Z := Calendar.midnight 2025 1 15.

(** One row dated 2025-01-15 with amount 1000. *)
Definition fixture_single (category : option string) : list CsvRow :=
  [mkCsvRow (DateOk jan15) category (Numeric 1000)].

(** Two rows with numeric amounts, the second with an empty date cell. *)
Definition fixture_undated : list CsvRow :=
  [ mkCsvRow (DateOk jan15) (Some "A") (Numeric 1000);
    mkCsvRow DateBlank (Some "A") (Numeric 100) ].

(** One row with amount 0. *)
Definition fixture_zero : list CsvRow :=
  [mkCsvRow (DateOk jan15) (Some "A") (Numeric 0)].

(** Category A sums to 600 and B to 400. *)
Definition fixture_clean : list CsvRow :=
  [ mkCsvRow (DateOk jan15) (Some "B") (Numeric 400);
    mkCsvRow (DateOk (Calendar.midnight 2025 4 2)) (Some "A") (Numeric 100);
    mkCsvRow (DateOk (Calendar.midnight 2024 12 31)) (Some "A") (Numeric 500) ].

(** A row without an amount, dated after every row of [fixture_clean]. *)
Definition row_without_amount : CsvRow :=
  mkCsvRow (DateOk (Calendar.midnight 2027 12 31)) (Some "A") (NonNumeric "n/a").

Definition fixture_two_categories : list CsvRow :=
  fixture_clean ++ [row_without_amount].

Definition frame_two_categories : list Row :=
  dropna (row_of <$> fixture_two_categories).

Definition empty_dir : World := mkWorld ∅ [].

(** The files a completed run has saved. *)
Definition CHARTS : list string :=
  ["daily_sales_line_chart.png"; "monthly_sales_line_chart.png";
   "quarterly_sales_line_chart.png"; "category_sales_bar_chart.png";
   "category_sales_pie_chart.png"].

Definition dir_with (rows : list CsvRow) : World :=
  mkWorld {[ INPUT := Csv rows ]} [].

(** ** Notions for the further properties *)

(** The confirmation line printed after a chart is saved. *)
Definition confirmation (name : string) : string := "Chart saved: " +:+ name.

(** Lines 55 to 147 on a frame: the charts in the order they are saved; the
    pie chart is among them when [plt.pie] accepts the shares. *)
Definition charts_of (df : list Row) : list (string * Chart) :=
  [ ("daily_sales_line_chart.png"%string,
     TimeLineChart "Daily Total Sales (INR) Over Time" (daily_sales df));
    ("monthly_sales_line_chart.png"%string,
     LabelLineChart "Monthly Total Sales (INR)" (monthly_labelled df));
    ("quarterly_sales_line_chart.png"%string,
     LabelLineChart "Quarterly Total Sales (INR)" (quarterly_labelled df));
    ("category_sales_bar_chart.png"%string,
     BarChart "Total Sales (INR) by Product Category" (bar_chart (category_sales df))) ]
  ++ match pie (category_share (category_sales df)) with
     | Ret wedges =>
         [("category_sales_pie_chart.png"%string,
           PieChart "Total Sales Share by Product Category" wedges)]
     | _ => []
     end.

(** The directory after the charts of a list have been saved in order. *)
Definition write_all (charts : list (string * Chart)) (dir : gmap string File) : gmap string File :=
  foldl (fun d nc => <[nc.1 := Png nc.2]> d) dir charts.

(** What saving the charts of a list adds to the trace. *)
Definition save_events (charts : list (string * Chart)) : list Event :=
  charts ≫= (fun nc => [Save nc.1; Print (confirmation nc.1)]).

(** How a run that has a frame ends. *)
Definition pie_status (df : list Row) : outcome unit :=
  match pie (category_share (category_sales df)) with
  | Ret _ => Ret tt
  | SysExit n => SysExit n
  | Raise e => Raise e
  end.

Definition has_date (r : Row) : bool :=
  match Date r with Some _ => true | None => false end.

Definition has_category (r : Row) : bool :=
  match Product_Category r with Some _ => true | None => false end.

Definition in_category (c : string) (r : Row) : bool :=
  match Product_Category r with
  | Some c' => String.eqb c' c
  | None => false
  end.

(** The sum of the amounts of the rows of one category. *)
Definition category_total (c : string) (df : list Row) : Q :=
  Qsum (amount <$> List.filter (in_category c) df).

(** A formatted number without its thousands separators, and the integer
    it spells. *)
Definition strip_commas (s : string) : string :=
  Strings.String.string_of_list_ascii
    (List.filter (fun a => negb (Ascii.eqb a ","))
       (Strings.String.list_ascii_of_string s)).

Definition read_Z (s : string) : option Z :=
  Z.of_int <$> NilZero.int_of_string s.

(** A file whose second row has a date that does not parse. *)
Definition fixture_bad_date : list CsvRow :=
  [ mkCsvRow (DateOk jan15) (Some "A") (Numeric 1000);
    mkCsvRow (DateBad "yesterday") (Some "A") (NonNumeric "") ].

(** A file whose category B adds up to a negative amount. *)
Definition fixture_refund : list CsvRow :=
  [ mkCsvRow (DateOk jan15) (Some "A") (Numeric 100);
    mkCsvRow (DateOk jan15) (Some "B") (Numeric (-20)) ].

Definition CLOSING : list string :=
  [ String "010"%char
      " All charts have been generated and saved as PNG files in the current directory.";
    "Review the 'analysis_summary.md' file for the discussion and findings." ]%string.

(** The sum of the entries of a grouped series under one key. *)
Definition entries_total (c : string) (g : list (string * Q)) : Q :=
  Qsum (snd <$> List.filter (fun x => String.eqb x.1 c) g).

(** The lexical order [groupby] keeps its keys in. *)
Definition key_lt (a b : string) : Prop := String.compare a b = Lt.

Definition numeric_cell (c : CsvRow) : bool :=
  match csv_Total_Sales_INR c with Numeric _ => true | NonNumeric _ => false end.

Definition not_comma (a : ascii) : bool := negb (Ascii.eqb a ",").

(** ** Inputs on which the libraries compute exactly and do not fail

    The frame is modelled with exact amounts, a resampling that always
    succeeds and text that is always drawn.  pandas and matplotlib agree with
    that on the frames described here: [resample] needs a dated row and month
    and quarter ends inside the range of [datetime64[ns]]; whole amounts
    whose absolute values add up to less than 2^53 are summed without
    rounding or wrap-around in [int64] and in [float64]; a label without a
    dollar sign is drawn as plain text. *)

Definition EXACT_BOUND : Q := 9007199254740992.

Definition whole (q : Q) : Prop := exists n : Z, q = inject_Z n.

Definition in_timestamp_years (ts : Z) : Prop :=
  1678 <= Calendar.year_of ts <= 2261.

Definition plain_label (s : string) : bool :=
  forallb (fun a => negb (Ascii.eqb a "$")) (Strings.String.list_ascii_of_string s).

Definition exact_amounts (df : list Row) : Prop :=
  Forall (fun r => whole (amount r)) df
  /\ (Qsum (Qabs ∘ amount <$> df) < EXACT_BOUND)%Q.

Definition dates_in_range (df : list Row) : Prop :=
  Forall (fun r => forall ts, Date r = Some ts -> in_timestamp_years ts) df.

Definition regular_frame (df : list Row) : Prop :=
  Exists (fun r => is_Some (Date r)) df
  /\ dates_in_range df
  /\ exact_amounts df
  /\ Forall (fun r => forall cat, Product_Category r = Some cat -> plain_label cat = true) df.

(** The tenths of a percentage are farther than a tenth from the middle
    between two integers: rounding the percentage to one decimal is not
    changed by an error below a hundredth. *)
Definition away_from_tie (p : Q) : Prop :=
  (1 # 10 < Qabs (p * 10 - inject_Z (Qfloor (p * 10)) - (1 # 2)))%Q.

(** ** Sums over the lines of the file *)





(** ** Facts about sums *)

(** One goal per row of a frame given by its rows. *)
Ltac each_row := repeat first [apply Forall_nil_2 | apply Forall_cons_2].

Section Sums.

Local Open Scope Q_scope.

Lemma fold_left_Qplus (l : list Q) (a : Q) :
  fold_left Qplus l a == a + Qsum l.
Proof.
  unfold Qsum. revert a.
  induction l as [|x l IH]; intros a; simpl.
  - ring.
  - rewrite (IH (a + x)), (IH (0 + x)). ring.
Qed.

Lemma Qsum_nil : Qsum [] = 0.
Proof. reflexivity. Qed.

Lemma Qsum_cons (x : Q) (l : list Q) : Qsum (x :: l) == x + Qsum l.
Proof.
  unfold Qsum at 1. simpl. rewrite fold_left_Qplus. ring.
Qed.

Lemma Qsum_app (l1 l2 : list Q) : Qsum (l1 ++ l2) == Qsum l1 + Qsum l2.
Proof.
  induction l1 as [|x l1 IH]; simpl.
  - rewrite Qsum_nil. ring.
  - rewrite !Qsum_cons, IH. ring.
Qed.

Lemma Qsum_scale (c : Q) (l : list Q) :
  Qsum ((fun v => v * c) <$> l) == Qsum l * c.
Proof.
  induction l as [|x l IH]; simpl.
  - rewrite Qsum_nil. ring.
  - rewrite !Qsum_cons, IH. ring.
Qed.

End Sums.

(** ** Facts about resampling *)

Section Resample.

Local Open Scope Q_scope.

Variable key : Z -> Z.

Local Arguments contribution : simpl never.

Lemma bucket_sum_cons (k : Z) (r : Row) (df : list Row) :
  bucket_sum key k (r :: df) == contribution key k r + bucket_sum key k df.
Proof.
  unfold bucket_sum, contribution. simpl.
  destruct (in_bucket key k r); simpl.
  - apply Qsum_cons.
  - ring.
Qed.

Lemma contribution_outside (ks : list Z) (r : Row) :
  (forall ts, Date r = Some ts -> key ts ∉ ks) ->
  Qsum ((fun k => contribution key k r) <$> ks) == 0.
Proof.
  intros Hout. induction ks as [|k ks IH]; simpl.
  - reflexivity.
  - rewrite Qsum_cons, IH.
    + unfold contribution, in_bucket.
      destruct (Date r) as [ts|] eqn:Hd; [|ring].
      destruct (Z.eqb_spec (key ts) k) as [Heq|_]; [|ring].
      exfalso. apply (Hout ts eq_refl). rewrite Heq. left.
    + intros ts Hts Hin. apply (Hout ts Hts). by right.
Qed.

Lemma contribution_inside (ks : list Z) (r : Row) (ts : Z) :
  NoDup ks -> Date r = Some ts -> key ts ∈ ks ->
  Qsum ((fun k => contribution key k r) <$> ks) == amount r.
Proof.
  intros Hnd Hd. induction Hnd as [|k ks Hk Hnd IH]; intros Hin.
  - by apply elem_of_nil in Hin.
  - simpl. rewrite Qsum_cons.
    apply elem_of_cons in Hin as [Heq|Hin].
    + rewrite contribution_outside.
      * unfold contribution, in_bucket. rewrite Hd, Heq, Z.eqb_refl. ring.
      * intros ts' Hts'. rewrite Hd in Hts'. injection Hts' as <-. by rewrite Heq.
    + rewrite (IH Hin).
      unfold contribution, in_bucket. rewrite Hd.
      destruct (Z.eqb_spec (key ts) k) as [Heq|_]; [|ring].
      exfalso. apply Hk. by rewrite <- Heq.
Qed.

Lemma buckets_cons (ks : list Z) (r : Row) (df : list Row) :
  Qsum ((fun k => bucket_sum key k (r :: df)) <$> ks)
  == Qsum ((fun k => contribution key k r) <$> ks)
     + Qsum ((fun k => bucket_sum key k df) <$> ks).
Proof.
  induction ks as [|k ks IH]; csimpl.
  - rewrite !Qsum_nil. ring.
  - rewrite !Qsum_cons, IH, bucket_sum_cons. ring.
Qed.

(** Buckets that cover the key of every row, each once, add up to the sum
    of the column. *)
Lemma buckets_total (ks : list Z) (df : list Row) :
  NoDup ks ->
  Forall (fun r => exists ts, Date r = Some ts /\ key ts ∈ ks) df ->
  Qsum ((fun k => bucket_sum key k df) <$> ks) == grand_total df.
Proof.
  intros Hnd Hall. induction Hall as [|r df (ts & Hd & Hin) Hall IH].
  - unfold grand_total. simpl. induction ks as [|k ks IHk]; simpl.
    + reflexivity.
    + rewrite Qsum_cons. apply NoDup_cons in Hnd as [_ Hnd].
      rewrite (IHk Hnd). unfold bucket_sum, contribution. simpl. rewrite !Qsum_nil. ring.
  - rewrite buckets_cons, IH, (contribution_inside ks r ts Hnd Hd Hin).
    unfold grand_total. simpl. by rewrite Qsum_cons.
Qed.

Lemma foldr_min_le (k0 : Z) (ks : list Z) (k : Z) :
  k ∈ k0 :: ks -> (foldr Z.min k0 ks <= k)%Z.
Proof.
  induction ks as [|k1 ks IH]; simpl; intros Hin.
  - apply list_elem_of_singleton in Hin. lia.
  - apply elem_of_cons in Hin as [->|Hin].
    + assert (foldr Z.min k0 ks <= k0)%Z by (apply IH; left). lia.
    + apply elem_of_cons in Hin as [->|Hin]; [lia|].
      assert (foldr Z.min k0 ks <= k)%Z by (apply IH; by right). lia.
Qed.

Lemma foldr_max_ge (k0 : Z) (ks : list Z) (k : Z) :
  k ∈ k0 :: ks -> (k <= foldr Z.max k0 ks)%Z.
Proof.
  induction ks as [|k1 ks IH]; simpl; intros Hin.
  - apply list_elem_of_singleton in Hin. lia.
  - apply elem_of_cons in Hin as [->|Hin].
    + assert (k0 <= foldr Z.max k0 ks)%Z by (apply IH; left). lia.
    + apply elem_of_cons in Hin as [->|Hin]; [lia|].
      assert (k <= foldr Z.max k0 ks)%Z by (apply IH; by right). lia.
Qed.

Lemma foldr_min_elem (k0 : Z) (ks : list Z) : foldr Z.min k0 ks ∈ k0 :: ks.
Proof.
  induction ks as [|k1 ks IH]; simpl.
  - left.
  - destruct (Z.min_spec k1 (foldr Z.min k0 ks)) as [[_ ->]|[_ ->]].
    + right. left.
    + apply elem_of_cons in IH as [->|IH]; [left | right; by right].
Qed.

Lemma foldr_max_elem (k0 : Z) (ks : list Z) : foldr Z.max k0 ks ∈ k0 :: ks.
Proof.
  induction ks as [|k1 ks IH]; simpl.
  - left.
  - destruct (Z.max_spec k1 (foldr Z.max k0 ks)) as [[_ ->]|[_ ->]].
    + apply elem_of_cons in IH as [->|IH]; [left | right; by right].
    + right. left.
Qed.

Lemma elem_of_bucket_keys (k : Z) (df : list Row) :
  k ∈ bucket_keys key df <-> exists r ts, r ∈ df /\ Date r = Some ts /\ key ts = k.
Proof.
  unfold bucket_keys. rewrite list_elem_of_omap. split.
  - intros (r & Hr & Hk). destruct (Date r) as [ts|] eqn:Hd; simpl in Hk; [|done].
    injection Hk as <-. by exists r, ts.
  - intros (r & ts & Hr & Hd & <-). exists r. by rewrite Hd.
Qed.

(** The keys of a resampled series: ascending, without repetition or gap,
    from the least to the greatest key of a dated row. *)
Lemma resample_sum_keys (df : list Row) (k : Z) :
  k ∈ (resample_sum key df).*1 <->
  exists k1 k2, k1 ∈ bucket_keys key df /\ k2 ∈ bucket_keys key df /\ (k1 <= k <= k2)%Z.
Proof.
  unfold resample_sum.
  destruct (bucket_keys key df) as [|k0 ks] eqn:Hks.
  - split; [by intros ?%elem_of_nil | by intros (? & ? & ?%elem_of_nil & _)].
  - rewrite <- list_fmap_compose. simpl.
    change (fst ∘ _) with (@id Z). rewrite list_fmap_id, elem_of_seqZ.
    split.
    + intros Hk. exists (foldr Z.min k0 ks), (foldr Z.max k0 ks).
      split; [apply foldr_min_elem|]. split; [apply foldr_max_elem|]. lia.
    + intros (k1 & k2 & H1 & H2 & Hk).
      pose proof (foldr_min_le _ _ _ H1). pose proof (foldr_max_ge _ _ _ H2). lia.
Qed.

Lemma resample_sum_NoDup (df : list Row) : NoDup (resample_sum key df).*1.
Proof.
  unfold resample_sum. destruct (bucket_keys key df) as [|k0 ks].
  - constructor.
  - rewrite <- list_fmap_compose. change (fst ∘ _) with (@id Z).
    rewrite list_fmap_id. apply NoDup_seqZ.
Qed.

Lemma resample_sum_values (df : list Row) (k : Z) (v : Q) :
  (k, v) ∈ resample_sum key df -> v = bucket_sum key k df.
Proof.
  unfold resample_sum. destruct (bucket_keys key df) as [|k0 ks].
  - by intros ?%elem_of_nil.
  - intros (k' & [= -> ->] & _)%list_elem_of_fmap. done.
Qed.

Lemma bucket_sum_empty (df : list Row) (k : Z) :
  (forall r ts, r ∈ df -> Date r = Some ts -> key ts <> k) ->
  bucket_sum key k df = 0.
Proof.
  intros Hno. unfold bucket_sum.
  replace (List.filter (in_bucket key k) df) with (@nil Row); [done|].
  symmetry. induction df as [|r df IH]; simpl; [done|].
  unfold in_bucket at 1. destruct (Date r) as [ts|] eqn:Hd.
  - destruct (Z.eqb_spec (key ts) k) as [Heq|_].
    + exfalso. apply (Hno r ts); [left | done | done].
    + apply IH. intros r' ts' Hr'. apply Hno. by right.
  - apply IH. intros r' ts' Hr'. apply Hno. by right.
Qed.

(** When every row has a date the resampled series adds up to the sum of
    the column. *)
Lemma resample_sum_total (df : list Row) :
  Forall (fun r => is_Some (Date r)) df ->
  series_sum (resample_sum key df) == grand_total df.
Proof.
  intros Hall. unfold series_sum.
  destruct (bucket_keys key df) as [|k0 ks] eqn:Hks.
  - unfold resample_sum. rewrite Hks.
    destruct df as [|r df]; [reflexivity|].
    apply Forall_cons in Hall as [[ts Hd] _].
    assert (key ts ∈ bucket_keys key (r :: df)) as Hin
      by (apply elem_of_bucket_keys; exists r, ts; split; [left | done]).
    rewrite Hks in Hin. by apply elem_of_nil in Hin.
  - unfold resample_sum. rewrite Hks. cbv zeta.
    rewrite <- list_fmap_compose.
    change (snd ∘ _) with (fun k => bucket_sum key k df).
    apply buckets_total; [apply NoDup_seqZ|].
    apply Forall_forall. intros r Hr.
    rewrite Forall_forall in Hall. destruct (Hall r Hr) as [ts Hd].
    exists ts. split; [done|].
    assert (key ts ∈ k0 :: ks) as Hin
      by (rewrite <- Hks; apply elem_of_bucket_keys; by exists r, ts).
    pose proof (foldr_min_le _ _ _ Hin). pose proof (foldr_max_ge _ _ _ Hin).
    apply elem_of_seqZ. lia.
Qed.

End Resample.

(** ** Facts about the prepared frame *)

Lemma to_datetime_Ret (col : list date_cell) (dates : list (option Z)) :
  to_datetime col = Ret dates <->
  Forall date_parses col /\ dates = date_value <$> col.
Proof.
  revert dates. induction col as [|c col IH]; intros dates; csimpl.
  - split; [intros [= <-]; by split | by intros [_ ->]].
  - rewrite Forall_cons.
    destruct (to_datetime col) as [ds|n|e] eqn:Hd.
    + destruct (IH ds) as [[Hall ->] _]; [done|].
      destruct c as [ts| |s]; simpl.
      * split; [intros [= <-]; by repeat split | by intros [_ ->]].
      * split; [intros [= <-]; by repeat split | by intros [_ ->]].
      * split; [done | by intros [[[] _] _]].
    + assert (~ Forall date_parses col) as Hno
        by (intros Hall; by destruct (IH (date_value <$> col)) as [_ Hb]; specialize (Hb (conj Hall eq_refl))).
      destruct c as [ts| |s]; simpl; (split; [done | by intros [[_ ?] _]]).
    + assert (~ Forall date_parses col) as Hno
        by (intros Hall; by destruct (IH (date_value <$> col)) as [_ Hb]; specialize (Hb (conj Hall eq_refl))).
      destruct c as [ts| |s]; simpl; (split; [done | by intros [[? ?] _]]).
Qed.

Lemma mk_rows_row_of (raw : list CsvRow) :
  mk_rows raw (date_value <$> (csv_Date <$> raw)) = row_of <$> raw.
Proof.
  unfold mk_rows. induction raw as [|c raw IH]; csimpl; [done|].
  by rewrite IH.
Qed.

(** The frame is the file's rows with a numeric amount, provided every date
    parses. *)
Lemma prepare_Ret (raw : list CsvRow) (df : list Row) :
  prepare raw = Ret df <->
  Forall date_parses (csv_Date <$> raw) /\ df = dropna (row_of <$> raw).
Proof.
  unfold prepare.
  destruct (to_datetime (csv_Date <$> raw)) as [ds|n|e] eqn:Hd.
  - apply to_datetime_Ret in Hd as [Hall ->]. rewrite mk_rows_row_of.
    split; [intros [= <-]; by split | by intros [_ ->]].
  - split; [done|]. intros [Hall _].
    destruct (to_datetime_Ret (csv_Date <$> raw) (date_value <$> (csv_Date <$> raw))) as [_ Hb].
    rewrite Hb in Hd; [done | by split].
  - split; [done|]. intros [Hall _].
    destruct (to_datetime_Ret (csv_Date <$> raw) (date_value <$> (csv_Date <$> raw))) as [_ Hb].
    rewrite Hb in Hd; [done | by split].
Qed.

Lemma dropna_app (l1 l2 : list Row) : dropna (l1 ++ l2) = dropna l1 ++ dropna l2.
Proof. apply List.filter_app. Qed.


(** ** Facts about the aggregation by category *)

Section Category.

Local Open Scope Q_scope.

Lemma add_to_group_sum (c : string) (q : Q) (g : list (string * Q)) :
  series_sum (add_to_group c q g) == series_sum g + q.
Proof.
  unfold series_sum. induction g as [|[c' s] g IH]; simpl.
  - rewrite Qsum_cons, !Qsum_nil. ring.
  - destruct (String.compare c c'); csimpl; rewrite !Qsum_cons.
    + ring.
    + ring.
    + rewrite IH. ring.
Qed.

Lemma groupby_fold_sum (df : list Row) (g : list (string * Q)) :
  Forall (fun r => is_Some (Product_Category r)) df ->
  series_sum (fold_left (fun g r =>
                 match Product_Category r with
                 | Some c => add_to_group c (amount r) g
                 | None => g
                 end) df g)
  == series_sum g + grand_total df.
Proof.
  intros Hall. revert g.
  induction Hall as [|r df [c Hc] Hall IH]; intros g; simpl.
  - unfold grand_total. simpl. rewrite Qsum_nil. ring.
  - rewrite IH, Hc, add_to_group_sum. unfold grand_total. csimpl.
    rewrite Qsum_cons. ring.
Qed.

Lemma groupby_sum_total (df : list Row) :
  Forall (fun r => is_Some (Product_Category r)) df ->
  series_sum (groupby_sum df) == grand_total df.
Proof.
  intros Hall. unfold groupby_sum. rewrite groupby_fold_sum by done.
  unfold series_sum. simpl. rewrite Qsum_nil. ring.
Qed.

Lemma insert_desc_sum (x : string * Q) (l : list (string * Q)) :
  series_sum (insert_desc x l) == x.2 + series_sum l.
Proof.
  unfold series_sum. induction l as [|y l IH]; simpl.
  - by rewrite Qsum_cons.
  - destruct (Qltb x.2 y.2); csimpl; rewrite !Qsum_cons; [rewrite IH|]; ring.
Qed.

Lemma sort_values_desc_sum (s : list (string * Q)) :
  series_sum (sort_values_desc s) == series_sum s.
Proof.
  induction s as [|x s IH]; simpl; [reflexivity|].
  rewrite insert_desc_sum, IH. unfold series_sum. csimpl. by rewrite Qsum_cons.
Qed.

Lemma Qltb_true (x y : Q) : Qltb x y = true <-> x < y.
Proof.
  unfold Qltb. rewrite negb_true_iff, <- not_true_iff_false, Qle_bool_iff.
  split; [apply Qnot_le_lt | apply Qlt_not_le].
Qed.

Lemma Qltb_false (x y : Q) : Qltb x y = false <-> y <= x.
Proof.
  unfold Qltb. rewrite negb_false_iff. apply Qle_bool_iff.
Qed.

Lemma Forall_insert_desc (P : string * Q -> Prop) (x : string * Q) (l : list (string * Q)) :
  P x -> Forall P l -> Forall P (insert_desc x l).
Proof.
  intros Hx Hl. induction Hl as [|y l Hy Hl IH]; simpl.
  - by constructor.
  - destruct (Qltb x.2 y.2); repeat constructor; done.
Qed.

Lemma insert_desc_descending (x : string * Q) (l : list (string * Q)) :
  descending l -> descending (insert_desc x l).
Proof.
  unfold descending. intros Hl. induction Hl as [|y l Hl IH Hy]; simpl.
  - repeat constructor.
  - destruct (Qltb x.2 y.2) eqn:Hlt.
    + constructor; [done|]. apply Forall_insert_desc; [|done].
      apply Qltb_true in Hlt. by apply Qlt_le_weak.
    + apply Qltb_false in Hlt. constructor; [by constructor|].
      constructor; [done|]. eapply Forall_impl; [exact Hy|].
      intros z Hz. simpl in Hz. by apply Qle_trans with y.2.
Qed.

Lemma sort_values_desc_descending (s : list (string * Q)) :
  descending (sort_values_desc s).
Proof.
  induction s as [|x s IH]; simpl.
  - constructor.
  - by apply insert_desc_descending.
Qed.

Lemma fsum_Fin (l : list Q) : fsum (Fin <$> l) = Fin (Qsum l).
Proof.
  unfold fsum, Qsum. generalize 0. induction l as [|x l IH]; intros a; simpl; [done|].
  apply IH.
Qed.

(** With a total that is not zero every share is the finite number
    [v / total * 100]. *)
Lemma category_share_finite (cs : list (string * Q)) :
  ~ series_sum cs == 0 ->
  (category_share cs).*2 = Fin <$> ((fun v => v / series_sum cs * 100) <$> cs.*2).
Proof.
  intros Hnz. unfold category_share. fold (series_sum cs).
  rewrite <- !list_fmap_compose. apply list_fmap_ext. intros _ [c v] _. simpl.
  unfold fdiv. destruct (Qeq_bool (series_sum cs) 0) eqn:Hz; [|done].
  by apply Qeq_bool_iff in Hz.
Qed.

Lemma shares_total (cs : list (string * Q)) :
  ~ series_sum cs == 0 ->
  feq (fsum (category_share cs).*2) (Fin 100).
Proof.
  intros Hnz. rewrite (category_share_finite cs Hnz), fsum_Fin. simpl.
  assert (forall l t, Qsum ((fun v => v / t * 100) <$> l) == Qsum l / t * 100) as ->.
  { intros l t. unfold Qdiv. induction l as [|x l IH]; csimpl.
    - rewrite Qsum_nil. ring.
    - rewrite !Qsum_cons, IH. ring. }
  fold (series_sum cs). field. exact Hnz.
Qed.

End Category.

(** ** The aggregates *)

Lemma StronglySorted_seqZ (m : Z) (n : nat) :
  StronglySorted Z.lt (seqZ m (Z.of_nat n)).
Proof.
  revert m. induction n as [|n IH]; intros m.
  - constructor.
  - rewrite Nat2Z.inj_succ, seqZ_cons by lia.
    replace (Z.pred (Z.succ (Z.of_nat n))) with (Z.of_nat n) by lia.
    constructor; [apply IH|].
    apply Forall_forall. intros k Hk%elem_of_seqZ. lia.
Qed.

Lemma resample_sum_sorted (key : Z -> Z) (df : list Row) :
  StronglySorted Z.lt (resample_sum key df).*1.
Proof.
  unfold resample_sum. destruct (bucket_keys key df) as [|k0 ks].
  - constructor.
  - rewrite <- list_fmap_compose. change (fst ∘ _) with (@id Z). rewrite list_fmap_id.
    cbv zeta. set (lo := foldr Z.min k0 ks). set (hi := foldr Z.max k0 ks).
    destruct (Z_lt_le_dec (hi - lo + 1) 0) as [Hneg|Hpos].
    + replace (seqZ lo (hi - lo + 1)) with (@nil Z); [constructor|].
      symmetry. by apply seqZ_nil; lia.
    + rewrite <- (Z2Nat.id (hi - lo + 1)) by done. apply StronglySorted_seqZ.
Qed.

Lemma resample_sum_zero_filled (key : Z -> Z) (df : list Row) :
  zero_filled key df (resample_sum key df).
Proof.
  split; [apply resample_sum_sorted|]. split.
  - intros k. rewrite resample_sum_keys. split.
    + intros (k1 & k2 & (r1 & t1 & H1 & Hd1 & <-)%elem_of_bucket_keys
                       & (r2 & t2 & H2 & Hd2 & <-)%elem_of_bucket_keys & Hk).
      by exists r1, r2, t1, t2.
    + intros (r1 & r2 & t1 & t2 & H1 & H2 & Hd1 & Hd2 & Hk).
      exists (key t1), (key t2).
      split; [apply elem_of_bucket_keys; by exists r1, t1|].
      split; [apply elem_of_bucket_keys; by exists r2, t2|]. done.
  - intros k v Hkv. apply resample_sum_values in Hkv as ->.
    split; [done|]. apply bucket_sum_empty.
Qed.

(** The months between the first and the last sale of the fixture, the two
    without a sale included. *)
Example monthly_sales_fills_gaps :
  monthly_labelled frame_two_categories
  = [("2024-12", 500); ("2025-01", 400); ("2025-02", 0); ("2025-03", 0);
     ("2025-04", 100)]%Q.
Proof. by vm_compute. Qed.

(** C10: the daily aggregate has one entry for every calendar day from the
    earliest to the latest date of the frame, a day without transactions
    holding 0; the monthly and the quarterly aggregates fill their empty
    buckets with 0 in the same way. *)
Theorem aggregates_zero_filled (df : list Row) :
  zero_filled Calendar.day_of df (daily_sales df)
  /\ zero_filled Calendar.month_key df (monthly_sales df)
  /\ zero_filled Calendar.quarter_key df (quarterly_sales df).
Proof.
  split; [|split]; apply resample_sum_zero_filled.
Qed.






(** C6, amended: when the category totals do not add up to zero, the
    percentage shares add up to exactly 100. *)
Theorem shares_sum_to_100 (df : list Row) :
  ~ (series_sum (category_sales df) == 0)%Q ->
  feq (fsum (category_share (category_sales df)).*2) (Fin 100).
Proof.
  apply shares_total.
Qed.

(** C6 as stated fails: one retained row with amount 0 gives one share,
    0 / 0, which is not a number. *)
Lemma shares_undefined_zero_total :
  exists df, prepare fixture_zero = Ret df
    /\ (1 <= length df)%nat
    /\ (category_share (category_sales df)).*2 = [NaN]
    /\ ~ feq (fsum (category_share (category_sales df)).*2) (Fin 100).
Proof.
  eexists. split; [reflexivity|]. split; [vm_compute; lia|].
  split; [reflexivity|]. vm_compute. tauto.
Qed.

(** ** Labels *)

Lemma check_from_spec (f : Z -> bool) (n : nat) (z : Z) :
  check_from f n z = true -> forall k, z <= k < z + Z.of_nat n -> f k = true.
Proof.
  revert z. induction n as [|n IH]; intros z H k Hk; [lia|].
  simpl in H. apply andb_true_iff in H as [Hz Hrest].
  destruct (decide (k = z)) as [->|Hne]; [done|].
  apply (IH (z + 1) Hrest). lia.
Qed.

Lemma month_of_doe_range (doe : Z) :
  0 <= doe < 146097 -> 1 <= Calendar.month_of_doe doe <= 12.
Proof.
  intros H.
  assert (check_from (fun d => (1 <=? Calendar.month_of_doe d)
                               && (Calendar.month_of_doe d <=? 12))
            (Z.to_nat 146097) 0 = true) as Hall by (vm_compute; reflexivity).
  pose proof (check_from_spec _ _ _ Hall doe ltac:(lia)) as Hd. cbv beta in Hd.
  apply andb_true_iff in Hd as [?%Z.leb_le ?%Z.leb_le]. lia.
Qed.

(** Every instant falls in one of the twelve months. *)
Lemma month_of_range (ts : Z) : 1 <= Calendar.month_of ts <= 12.
Proof.
  unfold Calendar.month_of, Calendar.civil_from_days. cbn [fst snd].
  set (z := Calendar.day_of ts + 719468).
  apply (month_of_doe_range (z - z / 146097 * 146097)).
  pose proof (Z.mod_pos_bound z 146097 ltac:(lia)) as H.
  rewrite Z.mod_eq in H by lia. lia.
Qed.

Lemma month_labels_shape (y m : Z) :
  Format.MIN_YEAR <= y <= Format.MAX_YEAR -> 1 <= m <= 12 ->
  Format.is_YYYY_MM (Format.zero_pad 4 (Format.show_Z y) +:+ "-"
                     +:+ Format.zero_pad 2 (Format.show_Z m)) = true.
Proof.
  intros Hy Hm.
  assert (check_from (fun y => check_from (fun m =>
            Format.is_YYYY_MM (Format.zero_pad 4 (Format.show_Z y) +:+ "-"
                               +:+ Format.zero_pad 2 (Format.show_Z m)))
            12 1) 586 1677 = true) as H by (vm_compute; reflexivity).
  unfold Format.MIN_YEAR, Format.MAX_YEAR in Hy.
  pose proof (check_from_spec _ _ _ H y ltac:(lia)) as Hy'. cbv beta in Hy'.
  apply (check_from_spec _ _ _ Hy' m). lia.
Qed.

Lemma quarter_labels_shape (y q : Z) :
  Format.MIN_YEAR <= y <= Format.MAX_YEAR -> 1 <= q <= 4 ->
  Format.is_YYYYQn (Format.show_Z y +:+ "Q" +:+ Format.show_Z q) = true.
Proof.
  intros Hy Hq.
  assert (check_from (fun y => check_from (fun q =>
            Format.is_YYYYQn (Format.show_Z y +:+ "Q" +:+ Format.show_Z q))
            4 1) 586 1677 = true) as H by (vm_compute; reflexivity).
  unfold Format.MIN_YEAR, Format.MAX_YEAR in Hy.
  pose proof (check_from_spec _ _ _ H y ltac:(lia)) as Hy'. cbv beta in Hy'.
  apply (check_from_spec _ _ _ Hy' q). lia.
Qed.

(** C8: a row dated in month [m] of year [y] falls in the bucket numbered
    [12 * y + (m - 1)], which is labelled with the four digits of [y], a dash
    and the two digits of [m]; one row dated 2025-01-15 with amount 1000
    gives the single monthly bucket "2025-01" with value 1000. *)
Theorem monthly_labels_YYYY_MM :
  (forall y m, Format.MIN_YEAR <= y <= Format.MAX_YEAR -> 1 <= m <= 12 ->
     Format.strftime_Ym (12 * y + (m - 1))
       = Format.zero_pad 4 (Format.show_Z y) +:+ "-" +:+ Format.zero_pad 2 (Format.show_Z m)
     /\ Format.is_YYYY_MM (Format.strftime_Ym (12 * y + (m - 1))) = true)
  /\ (forall ts,
        Calendar.month_key ts = 12 * Calendar.year_of ts + (Calendar.month_of ts - 1)
        /\ 1 <= Calendar.month_of ts <= 12)
  /\ (forall category, exists df,
        prepare (fixture_single category) = Ret df
        /\ monthly_labelled df = [("2025-01"%string, 1000%Q)]).
Proof.
  split; [|split].
  - intros y m Hy Hm.
    assert (Format.strftime_Ym (12 * y + (m - 1))
            = Format.zero_pad 4 (Format.show_Z y) +:+ "-"
              +:+ Format.zero_pad 2 (Format.show_Z m)) as Heq.
    { unfold Format.strftime_Ym.
      replace ((12 * y + (m - 1)) / 12) with y by (apply (Z.div_unique _ 12 y (m - 1)); lia).
      replace ((12 * y + (m - 1)) mod 12 + 1) with m
        by (rewrite <- (Z.mod_unique _ 12 y (m - 1)); lia).
      done. }
    split; [done|]. rewrite Heq. by apply month_labels_shape.
  - intros ts. split; [reflexivity | apply month_of_range].
  - intros category. eexists. split; [reflexivity|]. by vm_compute.
Qed.

(** C7, amended: a row dated in quarter [q] of year [y] falls in the
    bucket numbered [4 * y + (q - 1)], which is labelled with the year, the
    letter Q and the quarter number, without a space; one row dated
    2025-01-15 with amount 1000 gives the single quarterly bucket "2025Q1"
    with value 1000. *)
Theorem quarterly_labels_YYYYQn :
  (forall y q, Format.MIN_YEAR <= y <= Format.MAX_YEAR -> 1 <= q <= 4 ->
     Format.period_Q_str (4 * y + (q - 1))
       = Format.show_Z y +:+ "Q" +:+ Format.show_Z q
     /\ Format.is_YYYYQn (Format.period_Q_str (4 * y + (q - 1))) = true)
  /\ (forall ts,
        Calendar.quarter_key ts
          = 4 * Calendar.year_of ts + (((Calendar.month_of ts - 1) / 3 + 1) - 1)
        /\ 1 <= (Calendar.month_of ts - 1) / 3 + 1 <= 4)
  /\ (forall category, exists df,
        prepare (fixture_single category) = Ret df
        /\ quarterly_labelled df = [("2025Q1"%string, 1000%Q)]).
Proof.
  split; [|split].
  - intros y q Hy Hq.
    assert (Format.period_Q_str (4 * y + (q - 1))
            = Format.show_Z y +:+ "Q" +:+ Format.show_Z q) as Heq.
    { unfold Format.period_Q_str.
      replace ((4 * y + (q - 1)) / 4) with y by (apply (Z.div_unique _ 4 y (q - 1)); lia).
      replace ((4 * y + (q - 1)) mod 4 + 1) with q
        by (rewrite <- (Z.mod_unique _ 4 y (q - 1)); lia).
      done. }
    split; [done|]. rewrite Heq. by apply quarter_labels_shape.
  - intros ts. pose proof (month_of_range ts) as Hm.
    split; [unfold Calendar.quarter_key; lia|].
    pose proof (Z.div_le_lower_bound (Calendar.month_of ts - 1) 3 0 ltac:(lia) ltac:(lia)).
    pose proof (Z.div_lt_upper_bound (Calendar.month_of ts - 1) 3 4 ltac:(lia) ltac:(lia)).
    lia.
  - intros category. eexists. split; [reflexivity|]. by vm_compute.
Qed.

(** C7 as stated fails: the one quarterly bucket of the fixture is
    labelled "2025Q1"; no bucket is labelled "2025 Q1". *)
Lemma quarterly_label_has_no_space :
  exists df, prepare (fixture_single (Some "A"%string)) = Ret df
    /\ (quarterly_labelled df).*1 = ["2025Q1"%string]
    /\ ~ exists v, quarterly_labelled df = [("2025 Q1"%string, v)].
Proof.
  eexists. split; [reflexivity|]. split; [by vm_compute|].
  intros [v Hv]. vm_compute in Hv. discriminate.
Qed.

(** ** Order of the categories and the figures of the pie *)

Section Charts.

Local Open Scope Q_scope.

Lemma round_half_even_comp (x y : Q) :
  x == y -> Format.round_half_even x = Format.round_half_even y.
Proof.
  intros H. unfold Format.round_half_even.
  rewrite (Qfloor_comp x y H).
  assert ((x - inject_Z (Qfloor y) ?= 1 # 2) = (y - inject_Z (Qfloor y) ?= 1 # 2)) as ->.
  { apply Qcompare_comp; [by rewrite H | reflexivity]. }
  done.
Qed.

Lemma sign_of_comp (x y : Q) : x == y -> Format.sign_of x = Format.sign_of y.
Proof.
  intros H. unfold Format.sign_of.
  by rewrite (Qcompare_comp x y H 0 0 (Qeq_refl 0)).
Qed.

Lemma fmt_1f_comp (x y : Q) : x == y -> Format.fmt_1f x = Format.fmt_1f y.
Proof.
  intros H. unfold Format.fmt_1f.
  rewrite (sign_of_comp x y H).
  rewrite (round_half_even_comp (Qabs x * 10) (Qabs y * 10)); [done|].
  by rewrite H.
Qed.

Lemma bar_chart_order (cs : list (string * Q)) : (bar_chart cs).*1 = cs.
Proof.
  unfold bar_chart. induction cs as [|[c v] cs IH]; csimpl; [done|].
  by rewrite IH.
Qed.

Lemma mapM_wedges_order (sx : fval) (shares : list (string * fval))
    (wedges : list (string * string)) :
  mapM (fun '(c, x) => pair c <$> wedge_label sx x) shares = Some wedges ->
  wedges.*1 = shares.*1.
Proof.
  revert wedges. induction shares as [|[c x] shares IH]; intros wedges; csimpl.
  - by intros [= <-].
  - destruct (wedge_label sx x) as [lbl|]; csimpl; [|done].
    destruct (mapM _ shares) as [ws|]; csimpl; [|done].
    intros [= <-]. csimpl. by rewrite (IH ws).
Qed.

Lemma pie_order (shares : list (string * fval)) (wedges : list (string * string)) :
  pie shares = Ret wedges -> wedges.*1 = shares.*1.
Proof.
  unfold pie. destruct (existsb is_negative shares.*2); [done|].
  destruct (mapM _ shares) as [ws|] eqn:Hws; [|done].
  intros [= <-]. by apply mapM_wedges_order in Hws.
Qed.

Lemma category_share_order (cs : list (string * Q)) :
  (category_share cs).*1 = cs.*1.
Proof.
  unfold category_share. generalize (Qsum cs.*2). intros t.
  induction cs as [|[c v] cs IH]; csimpl; [done|]. by rewrite IH.
Qed.

Lemma Qeq_bool_false (x y : Q) : ~ x == y -> Qeq_bool x y = false.
Proof.
  intros H. destruct (Qeq_bool x y) eqn:E; [|done].
  by apply Qeq_bool_iff in E.
Qed.

(** The figures for two categories adding up to 600 and 400. *)
Lemma pie_600_400 (ca cb : string) (a b : Q) :
  a == 600 -> b == 400 ->
  pie (category_share [(ca, a); (cb, b)]) = Ret [(ca, "60.0%"%string); (cb, "40.0%"%string)].
Proof.
  intros Ha Hb.
  assert (Qsum [a; b] == 1000) as Ht
    by (rewrite !Qsum_cons, Qsum_nil, Ha, Hb; reflexivity).
  unfold category_share. csimpl. unfold fdiv.
  rewrite (Qeq_bool_false (Qsum [a; b]) 0) by (rewrite Ht; discriminate).
  simpl. unfold pie. csimpl.
  assert (a / Qsum [a; b] * 100 == 60) as Hsa by (rewrite Ht, Ha; reflexivity).
  assert (b / Qsum [a; b] * 100 == 40) as Hsb by (rewrite Ht, Hb; reflexivity).
  rewrite (proj2 (Qltb_false _ 0)) by (rewrite Hsa; discriminate).
  rewrite (proj2 (Qltb_false _ 0)) by (rewrite Hsb; discriminate).
  simpl. unfold wedge_label, fsum. simpl.
  set (t := 0 + a / Qsum [a; b] * 100 + b / Qsum [a; b] * 100).
  assert (t == 100) as Htot by (unfold t; rewrite Hsa, Hsb; reflexivity).
  rewrite (Qeq_bool_false t 0) by (rewrite Htot; discriminate).
  csimpl.
  rewrite (fmt_1f_comp (100 * (a / Qsum [a; b] * 100 / t)) 60)
    by (rewrite Hsa, Htot; reflexivity).
  rewrite (fmt_1f_comp (100 * (b / Qsum [a; b] * 100 / t)) 40)
    by (rewrite Hsb, Htot; reflexivity).
  reflexivity.
Qed.

End Charts.

(** C9: the category aggregate is in descending order of its sums and the
    bar chart and the pie chart show the categories in that order; when
    category "A" sums to 600 and "B" to 400, the bar chart shows "A" before
    "B" and the pie chart shows 60.0% and 40.0%. *)
Theorem categories_ranked_descending :
  (forall df,
     descending (category_sales df)
     /\ (bar_chart (category_sales df)).*1 = category_sales df
     /\ forall wedges, pie (category_share (category_sales df)) = Ret wedges ->
          wedges.*1 = (category_sales df).*1)
  /\ (forall df a b,
        groupby_sum df = [("A"%string, a); ("B"%string, b)] ->
        (a == 600)%Q -> (b == 400)%Q ->
        (bar_chart (category_sales df)).*1 = [("A"%string, a); ("B"%string, b)]
        /\ pie (category_share (category_sales df))
           = Ret [("A"%string, "60.0%"%string); ("B"%string, "40.0%"%string)]).
Proof.
  split.
  - intros df. split; [apply sort_values_desc_descending|].
    split; [apply bar_chart_order|].
    intros wedges Hw%pie_order. by rewrite category_share_order in Hw.
  - intros df a b Hg Ha Hb.
    assert (category_sales df = [("A"%string, a); ("B"%string, b)]) as Hcs.
    { unfold category_sales. rewrite Hg. simpl.
      rewrite (proj2 (Qltb_false a b)); [done|].
      rewrite Ha, Hb. discriminate. }
    rewrite Hcs, bar_chart_order. split; [done|]. by apply pie_600_400.
Qed.

(** ** The run *)

Lemma saved_app (t1 t2 : list Event) : saved (t1 ++ t2) = saved t1 ++ saved t2.
Proof. apply omap_app. Qed.

Lemma opened_app (t1 t2 : list Event) : opened (t1 ++ t2) = opened t1 ++ opened t2.
Proof. apply omap_app. Qed.

Lemma printed_app (t1 t2 : list Event) : printed (t1 ++ t2) = printed t1 ++ printed t2.
Proof. apply omap_app. Qed.

(** The world a run that gets as far as saving the pie chart ends in. *)
Lemma run_sales_analysis_cases (file_path : string) (w : World) :
  match fs w !! INPUT with
  | None =>
      run_sales_analysis file_path w
      = (SysExit 1,
         mkWorld (fs w)
           (trace w ++ [Open INPUT;
                        Print ("Error: The file '" +:+ file_path +:+ "' was not found.")]))
  | Some (Png _) =>
      run_sales_analysis file_path w
      = (Raise UnicodeDecodeError, mkWorld (fs w) (trace w ++ [Open INPUT]))
  | Some (Csv raw) =>
      match prepare raw with
      | Ret df =>
          exists w4,
            fs w4 = <["category_sales_bar_chart.png" :=
                       Png (BarChart "Total Sales (INR) by Product Category"
                              (bar_chart (category_sales df)))]>
                    (<["quarterly_sales_line_chart.png" :=
                        Png (LabelLineChart "Quarterly Total Sales (INR)" (quarterly_labelled df))]>
                    (<["monthly_sales_line_chart.png" :=
                        Png (LabelLineChart "Monthly Total Sales (INR)" (monthly_labelled df))]>
                    (<["daily_sales_line_chart.png" :=
                        Png (TimeLineChart "Daily Total Sales (INR) Over Time" (daily_sales df))]>
                    (fs w))))
            /\ trace w4 = trace w ++
                 [Open INPUT;
                  Save "daily_sales_line_chart.png";
                  Print "Chart saved: daily_sales_line_chart.png";
                  Save "monthly_sales_line_chart.png";
                  Print "Chart saved: monthly_sales_line_chart.png";
                  Save "quarterly_sales_line_chart.png";
                  Print "Chart saved: quarterly_sales_line_chart.png";
                  Save "category_sales_bar_chart.png";
                  Print "Chart saved: category_sales_bar_chart.png"]
            /\ match pie (category_share (category_sales df)) with
               | Ret wedges =>
                   run_sales_analysis file_path w
                   = (Ret tt,
                      mkWorld (<["category_sales_pie_chart.png" :=
                                  Png (PieChart "Total Sales Share by Product Category" wedges)]>
                               (fs w4))
                              (trace w4 ++ [Save "category_sales_pie_chart.png";
                                            Print "Chart saved: category_sales_pie_chart.png"]))
               | SysExit n => run_sales_analysis file_path w = (SysExit n, w4)
               | Raise e => run_sales_analysis file_path w = (Raise e, w4)
               end
      | SysExit n =>
          run_sales_analysis file_path w = (SysExit n, mkWorld (fs w) (trace w ++ [Open INPUT]))
      | Raise e =>
          run_sales_analysis file_path w = (Raise e, mkWorld (fs w) (trace w ++ [Open INPUT]))
      end
  end.
Proof.
  unfold run_sales_analysis, INPUT.
  unfold mbind, M_bind, except_FileNotFoundError, read_csv, lift, print, savefig, sys_exit, emit.
  cbn [fs trace].
  destruct (fs w !! "amazon_sales_2025_INR.csv") as [[raw|chart]|].
  - destruct (prepare raw) as [df|n|e]; [|done|done].
    eexists (mkWorld _ _). cbn [fs trace].
    split; [reflexivity|]. split; [reflexivity|].
    destruct (pie (category_share (category_sales df))) as [wedges|n|e];
      cbn [fs trace]; by rewrite <- !app_assoc.
  - done.
  - cbn [fs trace]. by rewrite <- app_assoc.
Qed.

(** C3: when the input file does not exist the run prints the error
    message and exits with status 1, and the working directory is left as
    it was: no chart file is created. *)
Theorem missing_input_exits_1 (file_path : string) (w : World) :
  fs w !! INPUT = None ->
  run_sales_analysis file_path w
  = (SysExit 1,
     mkWorld (fs w)
       (trace w ++ [Open INPUT;
                    Print ("Error: The file '" +:+ file_path +:+ "' was not found.")]))
  /\ fs (run_sales_analysis file_path w).2 = fs w
  /\ saved (trace (run_sales_analysis file_path w).2) = saved (trace w).
Proof.
  intros Hmiss. pose proof (run_sales_analysis_cases file_path w) as H.
  rewrite Hmiss in H. rewrite H. cbn [snd fs trace].
  repeat split. rewrite saved_app. simpl. apply app_nil_r.
Qed.

(** C1, amended: a run that completes has written exactly five chart
    files, the three line charts, the bar chart and the pie chart. *)
Theorem completed_run_saves_five_charts (file_path : string) (w : World) :
  (run_sales_analysis file_path w).1 = Ret tt ->
  saved (trace (run_sales_analysis file_path w).2) = saved (trace w) ++ CHARTS
  /\ length CHARTS = 5%nat
  /\ NoDup CHARTS
  /\ Forall (fun name => exists chart,
               fs (run_sales_analysis file_path w).2 !! name = Some (Png chart)) CHARTS.
Proof.
  intros Hdone. pose proof (run_sales_analysis_cases file_path w) as H.
  destruct (fs w !! INPUT) as [[raw|chart]|]; [| by rewrite H in Hdone..].
  destruct (prepare raw) as [df|n|e]; [| by rewrite H in Hdone..].
  destruct H as (w4 & Hfs & Htr & H).
  destruct (pie (category_share (category_sales df))) as [wedges|n|e];
    [| by rewrite H in Hdone..].
  rewrite H. cbn [snd fs trace]. rewrite Htr, Hfs.
  split; [by rewrite !saved_app, <- app_assoc|]. split; [done|].
  split; [by apply NoDup_ListNoDup; repeat constructor; simpl; intuition discriminate|].
  unfold CHARTS. repeat constructor; eexists; by simplify_map_eq.
Qed.

(** C1 as stated fails: the run on the two-category fixture completes and
    has saved five files, not six. *)
Lemma completed_run_saves_five_not_six :
  (run_sales_analysis INPUT (dir_with fixture_two_categories)).1 = Ret tt
  /\ length (saved (trace (run_sales_analysis INPUT (dir_with fixture_two_categories)).2)) = 5%nat
  /\ length (saved (trace (run_sales_analysis INPUT (dir_with fixture_two_categories)).2)) <> 6%nat.
Proof.
  assert (length (saved (trace (run_sales_analysis INPUT (dir_with fixture_two_categories)).2)) = 5%nat)
    as H by (vm_compute; reflexivity).
  split; [vm_compute; reflexivity|]. split; [exact H|]. rewrite H. discriminate.
Qed.

(** C2, amended: the run opens the fixed file whatever [file_path] is, and
    its exit status, the files it saves and the working directory it leaves
    do not depend on [file_path]; when the fixed file exists the whole run
    is the same for every [file_path]; when it does not, the one printed line
    is the error message, which quotes [file_path]. *)
Theorem file_path_only_in_error_message (p1 p2 : string) (w : World) :
  opened (trace (run_sales_analysis p1 w).2) = opened (trace w) ++ [INPUT]
  /\ (run_sales_analysis p1 w).1 = (run_sales_analysis p2 w).1
  /\ fs (run_sales_analysis p1 w).2 = fs (run_sales_analysis p2 w).2
  /\ saved (trace (run_sales_analysis p1 w).2) = saved (trace (run_sales_analysis p2 w).2)
  /\ match fs w !! INPUT with
     | Some _ => run_sales_analysis p1 w = run_sales_analysis p2 w
     | None =>
         printed (trace (run_sales_analysis p1 w).2)
         = printed (trace w) ++ ["Error: The file '" +:+ p1 +:+ "' was not found."]
     end.
Proof.
  pose proof (run_sales_analysis_cases p1 w) as H1.
  pose proof (run_sales_analysis_cases p2 w) as H2.
  destruct (fs w !! INPUT) as [[raw|chart]|].
  - destruct (prepare raw) as [df|n|e].
    + destruct H1 as ([fs1 t1] & Hfs1 & Ht1 & H1). destruct H2 as ([fs2 t2] & Hfs2 & Ht2 & H2).
      cbn [fs trace] in *. subst fs1 t1 fs2 t2.
      destruct (pie (category_share (category_sales df))) as [wedges|n|e];
        rewrite H1, H2; cbn [fst snd fs trace]; rewrite ?opened_app;
        repeat split; simpl; by rewrite ?app_nil_r.
    + rewrite H1, H2. cbn [fst snd fs trace]. by rewrite opened_app.
    + rewrite H1, H2. cbn [fst snd fs trace]. by rewrite opened_app.
  - rewrite H1, H2. cbn [fst snd fs trace]. by rewrite opened_app.
  - rewrite H1, H2. cbn [fst snd fs trace]. rewrite opened_app, !saved_app, printed_app.
    by repeat split.
Qed.

(** C2 as stated fails: in a directory without the input file the runs
    for two values of [file_path] print different lines. *)
Lemma error_message_quotes_file_path :
  printed (trace (run_sales_analysis "a.csv" empty_dir).2)
    = ["Error: The file 'a.csv' was not found."%string]
  /\ printed (trace (run_sales_analysis "b.csv" empty_dir).2)
    = ["Error: The file 'b.csv' was not found."%string]
  /\ run_sales_analysis "a.csv" empty_dir <> run_sales_analysis "b.csv" empty_dir.
Proof.
  split; [by vm_compute|]. split; [by vm_compute|].
  intros H. apply (f_equal (fun r => printed (trace r.2))) in H.
  vm_compute in H. discriminate.
Qed.

(** ** The theorems at the fixtures *)

Lemma completed_run_saves_five_charts_witness :
  (run_sales_analysis INPUT (dir_with fixture_two_categories)).1 = Ret tt
  /\ saved (trace (run_sales_analysis INPUT (dir_with fixture_two_categories)).2)
     = saved (trace (dir_with fixture_two_categories)) ++ CHARTS.
Proof.
  split; [vm_compute; reflexivity|].
  apply (completed_run_saves_five_charts INPUT (dir_with fixture_two_categories)).
  vm_compute; reflexivity.
Defined.

Lemma missing_input_exits_1_witness :
  fs empty_dir !! INPUT = None
  /\ (run_sales_analysis "sales.csv" empty_dir).1 = SysExit 1
  /\ fs (run_sales_analysis "sales.csv" empty_dir).2 = fs empty_dir.
Proof.
  split; [reflexivity|].
  destruct (missing_input_exits_1 "sales.csv" empty_dir) as (Hrun & Hfs & _);
    [reflexivity|].
  split; [by rewrite Hrun | exact Hfs].
Defined.


Lemma shares_sum_to_100_witness :
  ~ (series_sum (category_sales frame_two_categories) == 0)%Q
  /\ feq (fsum (category_share (category_sales frame_two_categories)).*2) (Fin 100).
Proof.
  assert (~ (series_sum (category_sales frame_two_categories) == 0)%Q) as Hnz
    by (vm_compute; discriminate).
  split; [exact Hnz|].
  apply (shares_sum_to_100 frame_two_categories Hnz).
Defined.

Lemma monthly_labels_YYYY_MM_witness :
  Format.MIN_YEAR <= 2025 <= Format.MAX_YEAR /\ 1 <= 1 <= 12
  /\ Format.strftime_Ym (12 * 2025 + (1 - 1)) = "2025-01"%string.
Proof.
  assert (Format.MIN_YEAR <= 2025 <= Format.MAX_YEAR) as Hy by (vm_compute; intuition discriminate).
  assert (1 <= 1 <= 12) as Hm by lia.
  split; [exact Hy|]. split; [exact Hm|].
  destruct (proj1 monthly_labels_YYYY_MM 2025 1 Hy Hm) as [-> _]. reflexivity.
Defined.

Lemma quarterly_labels_YYYYQn_witness :
  Format.MIN_YEAR <= 2025 <= Format.MAX_YEAR /\ 1 <= 1 <= 4
  /\ Format.period_Q_str (4 * 2025 + (1 - 1)) = "2025Q1"%string.
Proof.
  assert (Format.MIN_YEAR <= 2025 <= Format.MAX_YEAR) as Hy by (vm_compute; intuition discriminate).
  assert (1 <= 1 <= 4) as Hq by lia.
  split; [exact Hy|]. split; [exact Hq|].
  destruct (proj1 quarterly_labels_YYYYQn 2025 1 Hy Hq) as [-> _]. reflexivity.
Defined.

Lemma categories_ranked_descending_witness :
  groupby_sum frame_two_categories = [("A"%string, 600%Q); ("B"%string, 400%Q)]
  /\ (bar_chart (category_sales frame_two_categories)).*1
     = [("A"%string, 600%Q); ("B"%string, 400%Q)]
  /\ pie (category_share (category_sales frame_two_categories))
     = Ret [("A"%string, "60.0%"%string); ("B"%string, "40.0%"%string)].
Proof.
  split; [reflexivity|].
  apply (proj2 categories_ranked_descending frame_two_categories 600%Q 400%Q);
    reflexivity.
Defined.

(** ** The run as a whole *)

(** A run that gets a frame saves the charts of the frame, in order, each
    followed by its confirmation line. *)
Lemma run_with_frame (file_path : string) (w : World) (raw : list CsvRow) (df : list Row) :
  fs w !! INPUT = Some (Csv raw) ->
  prepare raw = Ret df ->
  run_sales_analysis file_path w
  = (pie_status df,
     mkWorld (write_all (charts_of df) (fs w))
             (trace w ++ Open INPUT :: save_events (charts_of df))).
Proof.
  intros Hin Hprep. pose proof (run_sales_analysis_cases file_path w) as H.
  rewrite Hin, Hprep in H. destruct H as ([fs4 t4] & Hfs & Htr & H).
  cbn [fs trace] in *. subst fs4 t4.
  unfold pie_status, charts_of.
  destruct (pie (category_share (category_sales df))) as [wedges|n|e];
    rewrite H; cbn; by rewrite <- ?app_assoc.
Qed.

Lemma run_without_frame (file_path : string) (w : World) :
  (forall raw df, fs w !! INPUT = Some (Csv raw) -> prepare raw <> Ret df) ->
  fs (run_sales_analysis file_path w).2 = fs w
  /\ saved (trace (run_sales_analysis file_path w).2) = saved (trace w)
  /\ (run_sales_analysis file_path w).1 <> Ret tt.
Proof.
  intros Hno. pose proof (run_sales_analysis_cases file_path w) as H.
  destruct (fs w !! INPUT) as [[raw|chart]|].
  - destruct (prepare raw) as [df|n|e] eqn:Hp.
    + by destruct (Hno raw df eq_refl).
    + rewrite H. cbn [fst snd fs trace]. rewrite saved_app. simpl. by rewrite app_nil_r.
    + rewrite H. cbn [fst snd fs trace]. rewrite saved_app. simpl. by rewrite app_nil_r.
  - rewrite H. cbn [fst snd fs trace]. rewrite saved_app. simpl. by rewrite app_nil_r.
  - rewrite H. cbn [fst snd fs trace]. rewrite saved_app. simpl. by rewrite app_nil_r.
Qed.

Lemma charts_of_names (df : list Row) : (charts_of df).*1 `prefix_of` CHARTS.
Proof.
  unfold charts_of. destruct (pie _) as [wedges|n|e]; cbn.
  - by exists [].
  - by exists ["category_sales_pie_chart.png"%string].
  - by exists ["category_sales_pie_chart.png"%string].
Qed.

Lemma saved_save_events (charts : list (string * Chart)) :
  saved (save_events charts) = charts.*1.
Proof.
  unfold save_events. induction charts as [|[n c] charts IH]; csimpl; [done|].
  by rewrite IH.
Qed.

Lemma printed_save_events (charts : list (string * Chart)) :
  printed (save_events charts) = confirmation <$> charts.*1.
Proof.
  unfold save_events. induction charts as [|[n c] charts IH]; csimpl; [done|].
  by rewrite IH.
Qed.

Lemma write_all_lookup_other (charts : list (string * Chart)) (dir : gmap string File)
    (name : string) :
  name ∉ charts.*1 -> write_all charts dir !! name = dir !! name.
Proof.
  unfold write_all. revert dir.
  induction charts as [|[n c] charts IH]; intros dir Hn; csimpl in *; [done|].
  apply not_elem_of_cons in Hn as [Hne Hn].
  rewrite (IH _ Hn). by apply lookup_insert_ne.
Qed.

Lemma write_all_lookup_saved (charts : list (string * Chart)) (dir : gmap string File)
    (name : string) :
  name ∈ charts.*1 -> exists chart, write_all charts dir !! name = Some (Png chart).
Proof.
  unfold write_all. revert dir.
  induction charts as [|[n c] charts IH]; intros dir Hn; csimpl in *.
  - by apply elem_of_nil in Hn.
  - destruct (decide (name ∈ charts.*1)) as [Hin|Hout].
    + by apply IH.
    + apply elem_of_cons in Hn as [->|Hn]; [|done].
      exists c. fold (write_all charts (<[n:=Png c]> dir)).
      rewrite write_all_lookup_other by done. apply lookup_insert_eq.
Qed.

Lemma write_all_lookup_indep (charts : list (string * Chart)) (d1 d2 : gmap string File)
    (name : string) :
  name ∈ charts.*1 -> write_all charts d1 !! name = write_all charts d2 !! name.
Proof.
  revert d1 d2.
  induction charts as [|[n c] charts IH]; intros d1 d2 Hn; csimpl in *.
  - by apply elem_of_nil in Hn.
  - change (write_all charts (<[n:=Png c]> d1) !! name
            = write_all charts (<[n:=Png c]> d2) !! name).
    destruct (decide (name ∈ charts.*1)) as [Hin|Hout]; [by apply IH|].
    apply elem_of_cons in Hn as [->|Hn]; [|done].
    rewrite !write_all_lookup_other by done. by rewrite !lookup_insert_eq.
Qed.

(** Saving the same charts a second time changes nothing. *)
Lemma write_all_idemp (charts : list (string * Chart)) (dir : gmap string File) :
  write_all charts (write_all charts dir) = write_all charts dir.
Proof.
  apply map_eq. intros name.
  destruct (decide (name ∈ charts.*1)) as [Hin|Hout].
  - by apply write_all_lookup_indep.
  - by rewrite !write_all_lookup_other.
Qed.

Lemma elem_of_charts_of (df : list Row) (name : string) :
  name ∈ (charts_of df).*1 -> name ∈ CHARTS.
Proof.
  intros Hin. destruct (charts_of_names df) as [rest ->].
  apply elem_of_app. by left.
Qed.

Lemma INPUT_not_chart : INPUT ∉ CHARTS.
Proof.
  unfold CHARTS, INPUT. rewrite !not_elem_of_cons. repeat split; try done.
  apply not_elem_of_nil.
Qed.

(** X1: whatever the outcome of the run, a file whose name is not one of
    the five chart names is left as it was; in particular the input file is
    never modified. *)
Theorem other_files_untouched (file_path : string) (w : World) :
  (forall name, name ∉ CHARTS ->
     fs (run_sales_analysis file_path w).2 !! name = fs w !! name)
  /\ fs (run_sales_analysis file_path w).2 !! INPUT = fs w !! INPUT.
Proof.
  assert (forall name, name ∉ CHARTS ->
            fs (run_sales_analysis file_path w).2 !! name = fs w !! name) as Hother.
  { intros name Hname.
    destruct (fs w !! INPUT) as [[raw|chart]|] eqn:Hin.
    - destruct (prepare raw) as [df|n|e] eqn:Hp.
      + rewrite (run_with_frame file_path w raw df Hin Hp). cbn [snd fs].
        apply write_all_lookup_other. intros Hc. by apply Hname, (elem_of_charts_of df).
      + destruct (run_without_frame file_path w) as [-> _]; [|done].
        intros raw' df' Hr. rewrite Hin in Hr. injection Hr as <-. by rewrite Hp.
      + destruct (run_without_frame file_path w) as [-> _]; [|done].
        intros raw' df' Hr. rewrite Hin in Hr. injection Hr as <-. by rewrite Hp.
    - destruct (run_without_frame file_path w) as [-> _]; [|done].
      intros raw df Hr. by rewrite Hin in Hr.
    - destruct (run_without_frame file_path w) as [-> _]; [|done].
      intros raw df Hr. by rewrite Hin in Hr. }
  split; [exact Hother|]. apply Hother, INPUT_not_chart.
Qed.

Lemma other_files_untouched_witness :
  ("notes.txt"%string ∉ CHARTS)
  /\ fs (run_sales_analysis INPUT (dir_with fixture_clean)).2 !! "notes.txt"%string
     = fs (dir_with fixture_clean) !! "notes.txt"%string.
Proof.
  assert ("notes.txt"%string ∉ CHARTS) as Hn.
  { unfold CHARTS. rewrite !not_elem_of_cons. repeat split; try done. apply not_elem_of_nil. }
  split; [exact Hn|].
  apply (proj1 (other_files_untouched INPUT (dir_with fixture_clean)) _ Hn).
Defined.

(** X2: running the analysis again on the directory a run has left gives
    the same exit status and leaves the directory as the first run left it,
    whatever [file_path] is given to either run. *)
Theorem rerun_changes_nothing (p1 p2 : string) (w : World) :
  (run_sales_analysis p2 (run_sales_analysis p1 w).2).1 = (run_sales_analysis p1 w).1
  /\ fs (run_sales_analysis p2 (run_sales_analysis p1 w).2).2
     = fs (run_sales_analysis p1 w).2.
Proof.
  pose proof (run_sales_analysis_cases p1 w) as H1.
  pose proof (run_sales_analysis_cases p2 (run_sales_analysis p1 w).2) as H2.
  destruct (fs w !! INPUT) as [[raw|chart]|] eqn:Hin.
  - destruct (prepare raw) as [df|n|e] eqn:Hp.
    + clear H1 H2.
      rewrite (run_with_frame p1 w raw df Hin Hp). cbn [fst snd].
      erewrite (run_with_frame p2 _ raw df); [|cbn [fs]|done].
      * cbn [fst snd fs]. split; [done|]. apply write_all_idemp.
      * rewrite write_all_lookup_other; [done|].
        intros Hc%elem_of_charts_of. by apply INPUT_not_chart.
    + rewrite H1 in H2 |- *. cbn [fst snd fs trace] in *. rewrite Hin, Hp in H2.
      by rewrite H2.
    + rewrite H1 in H2 |- *. cbn [fst snd fs trace] in *. rewrite Hin, Hp in H2.
      by rewrite H2.
  - rewrite H1 in H2 |- *. cbn [fst snd fs trace] in *. rewrite Hin in H2. by rewrite H2.
  - rewrite H1 in H2 |- *. cbn [fst snd fs trace] in *. rewrite Hin in H2. by rewrite H2.
Qed.

(** X3: when the input file is in the directory, the files the run saves
    are the first few of the five charts, in their fixed order, and the lines
    it prints are exactly the confirmation lines of the files it saved, in
    the same order. *)
Theorem confirmations_match_saved_charts (file_path : string) (w : World) :
  is_Some (fs w !! INPUT) ->
  exists names,
    names `prefix_of` CHARTS
    /\ saved (trace (run_sales_analysis file_path w).2) = saved (trace w) ++ names
    /\ printed (trace (run_sales_analysis file_path w).2)
       = printed (trace w) ++ (confirmation <$> names).
Proof.
  intros [f Hin]. pose proof (run_sales_analysis_cases file_path w) as H.
  destruct f as [raw|chart].
  - destruct (prepare raw) as [df|n|e] eqn:Hp.
    + exists (charts_of df).*1. split; [apply charts_of_names|].
      rewrite (run_with_frame file_path w raw df Hin Hp). cbn [snd trace].
      rewrite saved_app, printed_app.
      change (Open INPUT :: save_events (charts_of df))
        with ([Open INPUT] ++ save_events (charts_of df)).
      by rewrite saved_app, printed_app, saved_save_events, printed_save_events.
    + exists []. split; [by exists CHARTS|]. rewrite Hin, Hp in H. rewrite H.
      cbn [snd trace]. by rewrite saved_app, printed_app.
    + exists []. split; [by exists CHARTS|]. rewrite Hin, Hp in H. rewrite H.
      cbn [snd trace]. by rewrite saved_app, printed_app.
  - exists []. split; [by exists CHARTS|]. rewrite Hin in H. rewrite H.
    cbn [snd trace]. by rewrite saved_app, printed_app.
Qed.

Lemma confirmations_match_saved_charts_witness :
  is_Some (fs (dir_with fixture_clean) !! INPUT)
  /\ exists names,
       names `prefix_of` CHARTS
       /\ saved (trace (run_sales_analysis INPUT (dir_with fixture_clean)).2)
          = saved (trace (dir_with fixture_clean)) ++ names
       /\ printed (trace (run_sales_analysis INPUT (dir_with fixture_clean)).2)
          = printed (trace (dir_with fixture_clean)) ++ (confirmation <$> names).
Proof.
  assert (is_Some (fs (dir_with fixture_clean) !! INPUT)) as Hin by (by eexists).
  split; [exact Hin|].
  apply (confirmations_match_saved_charts INPUT (dir_with fixture_clean) Hin).
Defined.

Lemma to_datetime_bad (col : list date_cell) :
  Exists (fun c => ~ date_parses c) col ->
  exists s, DateBad s ∈ col /\ to_datetime col = Raise (ValueError s).
Proof.
  induction col as [|c col IH]; intros Hex.
  - by apply Exists_nil in Hex.
  - destruct c as [ts| |s].
    + apply Exists_cons in Hex as [Hc|Hex]; [by destruct Hc|].
      destruct (IH Hex) as (s & Hs & Hraise). exists s.
      split; [by right|]. simpl. by rewrite Hraise.
    + apply Exists_cons in Hex as [Hc|Hex]; [by destruct Hc|].
      destruct (IH Hex) as (s & Hs & Hraise). exists s.
      split; [by right|]. simpl. by rewrite Hraise.
    + exists s. split; [left | done].
Qed.

(** X4: one date cell that does not parse aborts the run with a
    [ValueError] before any chart is saved, whether or not the amount of that
    row is numeric: the directory is left as it was and nothing is printed. *)
Theorem unparsable_date_aborts_run (file_path : string) (w : World)
    (raw : list CsvRow) (bad : string) :
  fs w !! INPUT = Some (Csv raw) ->
  DateBad bad ∈ csv_Date <$> raw ->
  exists s, DateBad s ∈ csv_Date <$> raw
    /\ run_sales_analysis file_path w
       = (Raise (ValueError s), mkWorld (fs w) (trace w ++ [Open INPUT])).
Proof.
  intros Hin Hbad.
  destruct (to_datetime_bad (csv_Date <$> raw)) as (s & Hs & Hraise).
  { apply Exists_exists. exists (DateBad bad). split; [done|]. by intros H. }
  exists s. split; [done|].
  pose proof (run_sales_analysis_cases file_path w) as H.
  rewrite Hin in H. unfold prepare in H. by rewrite Hraise in H.
Qed.

Lemma unparsable_date_aborts_run_witness :
  fs (dir_with fixture_bad_date) !! INPUT = Some (Csv fixture_bad_date)
  /\ DateBad "yesterday" ∈ csv_Date <$> fixture_bad_date
  /\ exists s, DateBad s ∈ csv_Date <$> fixture_bad_date
       /\ run_sales_analysis INPUT (dir_with fixture_bad_date)
          = (Raise (ValueError s),
             mkWorld (fs (dir_with fixture_bad_date))
                     (trace (dir_with fixture_bad_date) ++ [Open INPUT])).
Proof.
  assert (DateBad "yesterday" ∈ csv_Date <$> fixture_bad_date) as Hbad
    by (right; left).
  split; [reflexivity|]. split; [exact Hbad|].
  apply (unparsable_date_aborts_run INPUT (dir_with fixture_bad_date)
           fixture_bad_date "yesterday" eq_refl Hbad).
Defined.

(** X5: run as a script with the input file missing, the program prints
    one line, the error message naming the file it looked for, and exits
    with status 1; the closing lines are not printed. *)
Theorem main_missing_input (w : World) :
  fs w !! INPUT = None ->
  main w
  = (SysExit 1,
     mkWorld (fs w)
       (trace w ++ [Open INPUT;
                    Print "Error: The file 'amazon_sales_2025_INR.csv' was not found."])).
Proof.
  intros Hmiss. pose proof (run_sales_analysis_cases INPUT w) as H.
  rewrite Hmiss in H. unfold main, mbind, M_bind. fold INPUT. by rewrite H.
Qed.

Lemma main_missing_input_witness :
  fs empty_dir !! INPUT = None
  /\ (main empty_dir).1 = SysExit 1
  /\ printed (trace (main empty_dir).2)
     = ["Error: The file 'amazon_sales_2025_INR.csv' was not found."%string].
Proof.
  split; [reflexivity|].
  rewrite (main_missing_input empty_dir eq_refl). by split.
Defined.

(** X6: run as a script, the program ends with the status of the
    analysis; when it completes, all five charts have been saved and the last
    two printed lines are the closing lines, and when it does not complete
    the closing lines are not printed. *)
Theorem main_closing_lines (w : World) :
  (main w).1 = (run_sales_analysis INPUT w).1
  /\ fs (main w).2 = fs (run_sales_analysis INPUT w).2
  /\ saved (trace (main w).2) = saved (trace (run_sales_analysis INPUT w).2)
  /\ match (main w).1 with
     | Ret _ =>
         saved (trace (main w).2) = saved (trace w) ++ CHARTS
         /\ printed (trace (main w).2)
            = printed (trace w) ++ (confirmation <$> CHARTS) ++ CLOSING
     | _ => printed (trace (main w).2) = printed (trace (run_sales_analysis INPUT w).2)
     end.
Proof.
  unfold main, mbind, M_bind. fold INPUT.
  pose proof (run_sales_analysis_cases INPUT w) as H.
  destruct (fs w !! INPUT) as [[raw|chart]|] eqn:Hin.
  - destruct (prepare raw) as [df|n|e] eqn:Hp.
    + clear H. rewrite (run_with_frame INPUT w raw df Hin Hp).
      unfold pie_status, charts_of.
      destruct (pie (category_share (category_sales df))) as [wedges|n|e];
        cbn [fst snd fs trace print emit]; repeat split.
      * rewrite !saved_app. simpl. by rewrite !app_nil_r.
      * rewrite !saved_app. simpl. by rewrite !app_nil_r.
      * rewrite !printed_app. simpl. by rewrite <- !app_assoc.
    + by rewrite H.
    + by rewrite H.
  - by rewrite H.
  - by rewrite H.
Qed.

(** ** Signs of the amounts and the pie chart *)

Section Signs.

Local Open Scope Q_scope.

Lemma Qplus_nonneg (a b : Q) : 0 <= a -> 0 <= b -> 0 <= a + b.
Proof.
  intros Ha Hb. change (0 + 0 <= a + b). by apply Qplus_le_compat.
Qed.

Lemma Qsum_nonneg (l : list Q) : Forall (fun x => 0 <= x) l -> 0 <= Qsum l.
Proof.
  induction 1 as [|x l Hx Hl IH].
  - rewrite Qsum_nil. apply Qle_refl.
  - rewrite Qsum_cons. by apply Qplus_nonneg.
Qed.

Lemma Qsum_ge_elem (l : list Q) (x : Q) :
  Forall (fun x => 0 <= x) l -> x ∈ l -> x <= Qsum l.
Proof.
  intros Hl. induction Hl as [|y l Hy Hl IH]; intros Hin.
  - by apply elem_of_nil in Hin.
  - rewrite Qsum_cons. apply elem_of_cons in Hin as [->|Hin].
    + rewrite <- (Qplus_0_r y) at 1. apply Qplus_le_r. by apply Qsum_nonneg.
    + rewrite <- (Qplus_0_l x). apply Qplus_le_compat; [done | by apply IH].
Qed.

Lemma add_to_group_nonneg (c : string) (q : Q) (g : list (string * Q)) :
  0 <= q -> Forall (fun x => 0 <= x.2) g ->
  Forall (fun x => 0 <= x.2) (add_to_group c q g).
Proof.
  intros Hq Hg. induction Hg as [|[c' s] g Hs Hg IH]; simpl.
  - by repeat constructor.
  - destruct (String.compare c c').
    + constructor; [|done]. simpl in *. by apply Qplus_nonneg.
    + by repeat constructor.
    + by constructor.
Qed.

Lemma groupby_sum_nonneg (df : list Row) :
  Forall (fun r => 0 <= amount r) df ->
  Forall (fun x => 0 <= x.2) (groupby_sum df).
Proof.
  unfold groupby_sum. generalize (@nil (string * Q)) (Forall_nil_2 (fun x : string * Q => 0 <= x.2)).
  intros g Hg Hdf. revert g Hg.
  induction Hdf as [|r df Hr Hdf IH]; intros g Hg; simpl; [done|].
  apply IH. destruct (Product_Category r); [by apply add_to_group_nonneg | done].
Qed.

Lemma sort_values_desc_Forall (P : string * Q -> Prop) (s : list (string * Q)) :
  Forall P s -> Forall P (sort_values_desc s).
Proof.
  induction 1 as [|x s Hx Hs IH]; simpl; [constructor|].
  by apply Forall_insert_desc.
Qed.

Lemma category_sales_nonneg (df : list Row) :
  Forall (fun r => 0 <= amount r) df ->
  Forall (fun x => 0 <= x.2) (category_sales df).
Proof.
  intros Hdf. by apply sort_values_desc_Forall, groupby_sum_nonneg.
Qed.

Lemma share_bounds (v t : Q) : 0 <= v -> v <= t -> 0 < t -> 0 <= v / t * 100 <= 100.
Proof.
  intros Hv Hvt Ht. split.
  - apply Qmult_le_0_compat; [|discriminate].
    apply Qle_shift_div_l; [done|]. by rewrite Qmult_0_l.
  - change (v / t * 100 <= 1 * 100).
    apply Qmult_le_compat_r; [|discriminate].
    apply Qle_shift_div_r; [done|]. by rewrite Qmult_1_l.
Qed.

Lemma category_share_bounds (cs : list (string * Q)) :
  Forall (fun x => 0 <= x.2) cs ->
  0 < series_sum cs ->
  Forall (fun s => exists q, s.2 = Fin q /\ 0 <= q <= 100) (category_share cs).
Proof.
  intros Hnn Hpos.
  assert (~ series_sum cs == 0) as Hnz by (intros H; rewrite H in Hpos; by apply Qlt_irrefl in Hpos).
  apply Forall_forall. intros [c s] Hin.
  unfold category_share in Hin. fold (series_sum cs) in Hin.
  apply list_elem_of_fmap in Hin as ([c' v] & [= -> ->] & Hin).
  unfold fdiv. rewrite (Qeq_bool_false _ _ Hnz). simpl.
  eexists. split; [done|].
  rewrite Forall_forall in Hnn. apply share_bounds; [by apply (Hnn (c', v)) | | done].
  apply Qsum_ge_elem.
  - apply Forall_fmap. by apply Forall_forall.
  - apply list_elem_of_fmap. by exists (c', v).
Qed.

(** X7: when the category totals are whole numbers, none negative, that
    add up to a positive amount below 2^53, every percentage share is a
    finite number between 0 and 100. *)
Theorem shares_between_0_and_100 (cs : list (string * Q)) :
  Forall (fun x => whole x.2) cs ->
  series_sum cs < EXACT_BOUND ->
  Forall (fun x => 0 <= x.2) cs ->
  0 < series_sum cs ->
  Forall (fun s => exists q, s.2 = Fin q /\ 0 <= q <= 100) (category_share cs).
Proof.
  intros _ _. apply category_share_bounds.
Qed.

Lemma shares_between_0_and_100_witness :
  Forall (fun x => whole x.2) (category_sales frame_two_categories)
  /\ series_sum (category_sales frame_two_categories) < EXACT_BOUND
  /\ Forall (fun x => 0 <= x.2) (category_sales frame_two_categories)
  /\ 0 < series_sum (category_sales frame_two_categories)
  /\ Forall (fun s => exists q, s.2 = Fin q /\ 0 <= q <= 100)
       (category_share (category_sales frame_two_categories)).
Proof.
  assert (Forall (fun x => whole x.2) (category_sales frame_two_categories)) as Hw
    by (each_row; eexists; reflexivity).
  assert (series_sum (category_sales frame_two_categories) < EXACT_BOUND) as Hb by reflexivity.
  assert (Forall (fun x => 0 <= x.2) (category_sales frame_two_categories)) as Hnn
    by (repeat constructor; discriminate).
  assert (0 < series_sum (category_sales frame_two_categories)) as Hpos by reflexivity.
  split; [exact Hw|]. split; [exact Hb|]. split; [exact Hnn|]. split; [exact Hpos|].
  apply (shares_between_0_and_100 _ Hw Hb Hnn Hpos).
Defined.

(** Shares that are finite and not negative, with a sum that is not zero,
    are drawn. *)
Lemma pie_accepts (cs : list (string * Q)) :
  Forall (fun x => 0 <= x.2) cs ->
  0 < series_sum cs ->
  exists wedges, pie (category_share cs) = Ret wedges.
Proof.
  intros Hnn Hpos.
  assert (~ series_sum cs == 0) as Hnz by (intros H; rewrite H in Hpos; by apply Qlt_irrefl in Hpos).
  pose proof (category_share_bounds cs Hnn Hpos) as Hb.
  pose proof (shares_total cs Hnz) as Htot.
  unfold pie.
  assert (existsb is_negative (category_share cs).*2 = false) as ->.
  { apply not_true_iff_false. intros (x & Hx & Hneg)%existsb_exists.
    apply list_elem_of_In, list_elem_of_fmap in Hx as (s & -> & Hs).
    rewrite Forall_forall in Hb. destruct (Hb s Hs) as (q & Hq & Hq0 & _).
    rewrite Hq in Hneg. simpl in Hneg. apply Qltb_true in Hneg.
    by apply Qlt_not_le in Hneg. }
  destruct (fsum (category_share cs).*2) as [t| | |] eqn:Ht; simpl in Htot; try done.
  assert (Qeq_bool t 0 = false) as Ht0.
  { apply Qeq_bool_false. rewrite Htot. discriminate. }
  clear Ht Htot Hnn Hpos Hnz.
  induction Hb as [|[c s] shares (q & Hq & _) Hb IH]; csimpl.
  - by eexists.
  - simpl in Hq. subst s. simpl. rewrite Ht0. csimpl.
    destruct (mapM _ shares) as [ws|]; csimpl.
    + by eexists.
    + by destruct IH.
Qed.

Lemma pie_rejects_negative (cs : list (string * Q)) (c : string) (v : Q) :
  (c, v) ∈ cs -> v < 0 -> 0 <= series_sum cs ->
  pie (category_share cs) = Raise (ValueError "Wedge sizes 'x' must be non negative values").
Proof.
  intros Hin Hv Ht. unfold pie.
  assert (existsb is_negative (category_share cs).*2 = true) as ->; [|done].
  apply existsb_exists. exists (fscale (fdiv v (series_sum cs)) 100). split.
  - apply list_elem_of_In, list_elem_of_fmap.
    exists (c, fscale (fdiv v (series_sum cs)) 100). split; [done|].
    unfold category_share. fold (series_sum cs). apply list_elem_of_fmap. by exists (c, v).
  - unfold fdiv. destruct (Qeq_bool (series_sum cs) 0) eqn:Hz.
    + assert ((v ?= 0) = Lt) as -> by (by apply Qlt_alt). done.
    + simpl. apply Qltb_true.
      assert (0 < series_sum cs) as Hpos.
      { apply Qle_lt_or_eq in Ht as [?|Heq]; [done|].
        symmetry in Heq. apply Qeq_bool_iff in Heq. by rewrite Heq in Hz. }
      change (v / series_sum cs * 100 < 0 * 100).
      apply Qmult_lt_compat_r; [reflexivity|].
      apply Qlt_shift_div_r; [done|]. by rewrite Qmult_0_l.
Qed.

End Signs.

(** ** Rows without a date or a category *)

Section Missing.

Local Open Scope Q_scope.

Lemma groupby_sum_fold_categorised (df : list Row) (g : list (string * Q)) :
  fold_left (fun g r =>
               match Product_Category r with
               | Some c => add_to_group c (amount r) g
               | None => g
               end) (List.filter has_category df) g
  = fold_left (fun g r =>
               match Product_Category r with
               | Some c => add_to_group c (amount r) g
               | None => g
               end) df g.
Proof.
  revert g. induction df as [|r df IH]; intros g; simpl; [done|].
  unfold has_category at 1. destruct (Product_Category r) as [c|] eqn:Hc; simpl.
  - by rewrite Hc, IH.
  - apply IH.
Qed.

Lemma groupby_sum_categorised (df : list Row) :
  groupby_sum (List.filter has_category df) = groupby_sum df.
Proof. apply groupby_sum_fold_categorised. Qed.

Lemma Forall_has_category (df : list Row) :
  Forall (fun r => is_Some (Product_Category r)) (List.filter has_category df).
Proof.
  apply Forall_forall. intros r [_ Hr]%list_elem_of_In%List.filter_In.
  unfold has_category in Hr. by destruct (Product_Category r).
Qed.

Lemma Forall_has_date (df : list Row) :
  Forall (fun r => is_Some (Date r)) (List.filter has_date df).
Proof.
  apply Forall_forall. intros r [_ Hr]%list_elem_of_In%List.filter_In.
  unfold has_date in Hr. by destruct (Date r).
Qed.

Lemma category_sales_total (df : list Row) :
  series_sum (category_sales df) == grand_total (List.filter has_category df).
Proof.
  unfold category_sales. rewrite sort_values_desc_sum, <- groupby_sum_categorised.
  apply groupby_sum_total, Forall_has_category.
Qed.

Lemma bucket_keys_dated (key : Z -> Z) (df : list Row) :
  bucket_keys key (List.filter has_date df) = bucket_keys key df.
Proof.
  unfold bucket_keys. induction df as [|r df IH]; simpl; [done|].
  unfold has_date at 1. destruct (Date r) as [ts|] eqn:Hd; csimpl; rewrite ?Hd; csimpl.
  - by rewrite IH.
  - done.
Qed.

Lemma bucket_sum_dated (key : Z -> Z) (k : Z) (df : list Row) :
  bucket_sum key k (List.filter has_date df) = bucket_sum key k df.
Proof.
  unfold bucket_sum. f_equal. f_equal.
  induction df as [|r df IH]; simpl; [done|].
  unfold has_date at 1, in_bucket at 2. destruct (Date r) as [ts|] eqn:Hd; simpl.
  - unfold in_bucket at 1. rewrite Hd. by rewrite IH.
  - done.
Qed.

Lemma resample_sum_dated (key : Z -> Z) (df : list Row) :
  resample_sum key (List.filter has_date df) = resample_sum key df.
Proof.
  unfold resample_sum. rewrite bucket_keys_dated.
  destruct (bucket_keys key df) as [|k0 ks]; [done|].
  apply list_fmap_ext. intros _ k _. by rewrite bucket_sum_dated.
Qed.

Lemma resample_sum_total_dated (key : Z -> Z) (df : list Row) :
  series_sum (resample_sum key df) == grand_total (List.filter has_date df).
Proof.
  rewrite <- resample_sum_dated. apply resample_sum_total, Forall_has_date.
Qed.

End Missing.

(** X8: on a frame with a dated row the daily, the monthly and the quarterly
    aggregate add up to the same amount, the total of the rows that have a
    date, and the category aggregate adds up to the total of the rows that
    have a category, whatever else is missing in the file. *)
Theorem aggregates_total_what_they_group (df : list Row) :
  Exists (fun r => is_Some (Date r)) df ->
  (series_sum (daily_sales df) == grand_total (List.filter has_date df)
   /\ series_sum (monthly_sales df) == grand_total (List.filter has_date df)
   /\ series_sum (quarterly_sales df) == grand_total (List.filter has_date df)
   /\ series_sum (category_sales df) == grand_total (List.filter has_category df))%Q.
Proof.
  intros _. repeat split; try apply resample_sum_total_dated. apply category_sales_total.
Qed.

Lemma aggregates_total_what_they_group_witness :
  Exists (fun r => is_Some (Date r)) (dropna (row_of <$> fixture_undated))
  /\ (series_sum (daily_sales (dropna (row_of <$> fixture_undated)))
       == grand_total (List.filter has_date (dropna (row_of <$> fixture_undated))))%Q
  /\ (series_sum (category_sales (dropna (row_of <$> fixture_undated)))
       == grand_total (List.filter has_category (dropna (row_of <$> fixture_undated))))%Q.
Proof.
  assert (Exists (fun r => is_Some (Date r)) (dropna (row_of <$> fixture_undated))) as Hd
    by (left; by eexists).
  split; [exact Hd|].
  destruct (aggregates_total_what_they_group _ Hd) as (H1 & _ & _ & H4).
  by split.
Defined.

(** X9: on a frame with a dated row, dates in the years 1678 to 2261,
    whole amounts whose absolute values add up to less than 2^53 and category
    names without a dollar sign, a category whose total is negative, with
    totals that do not add up to a negative amount, stops the run at the pie
    chart: the three line charts and the bar chart have been saved, the run
    ends in a [ValueError] and the pie chart file is not written. *)
Theorem negative_category_stops_at_pie (file_path : string) (w : World)
    (raw : list CsvRow) (df : list Row) (c : string) (v : Q) :
  fs w !! INPUT = Some (Csv raw) ->
  prepare raw = Ret df ->
  regular_frame df ->
  (c, v) ∈ category_sales df -> (v < 0)%Q -> (0 <= series_sum (category_sales df))%Q ->
  (run_sales_analysis file_path w).1
    = Raise (ValueError "Wedge sizes 'x' must be non negative values")
  /\ saved (trace (run_sales_analysis file_path w).2) = saved (trace w) ++ take 4 CHARTS
  /\ fs (run_sales_analysis file_path w).2 !! "category_sales_pie_chart.png"
     = fs w !! "category_sales_pie_chart.png".
Proof.
  intros Hin Hp _ Hc Hv Ht.
  pose proof (pie_rejects_negative _ c v Hc Hv Ht) as Hpie.
  rewrite (run_with_frame file_path w raw df Hin Hp).
  unfold pie_status, charts_of. rewrite Hpie. cbn [fst snd fs trace].
  split; [done|]. split.
  - rewrite saved_app. by simpl.
  - by rewrite write_all_lookup_other
      by (simpl; rewrite !not_elem_of_cons; repeat split; try done; apply not_elem_of_nil).
Qed.

Lemma negative_category_stops_at_pie_witness :
  fs (dir_with fixture_refund) !! INPUT = Some (Csv fixture_refund)
  /\ (run_sales_analysis INPUT (dir_with fixture_refund)).1
     = Raise (ValueError "Wedge sizes 'x' must be non negative values")
  /\ saved (trace (run_sales_analysis INPUT (dir_with fixture_refund)).2)
     = saved (trace (dir_with fixture_refund)) ++ take 4 CHARTS.
Proof.
  split; [reflexivity|].
  destruct (negative_category_stops_at_pie INPUT (dir_with fixture_refund) fixture_refund
              (dropna (row_of <$> fixture_refund)) "B" (-20)%Q) as (Hs & Hsaved & _).
  - reflexivity.
  - reflexivity.
  - split; [left; by eexists|]. split.
    + unfold dates_in_range. each_row; intros ts [= <-]; split; by vm_compute.
    + split; [|each_row; by intros cat [= <-]].
      split; [each_row; eexists; reflexivity | reflexivity].
  - right. left.
  - reflexivity.
  - discriminate.
  - by split.
Defined.

(** X10: when the input file is there, no date cell fails to parse, the
    frame has a dated row, dates in the years 1678 to 2261, whole amounts
    that add up to less than 2^53 and category names without a dollar sign,
    no amount is negative and some row with a category has a positive amount,
    the run completes and saves all five charts. *)
Theorem clean_input_completes (file_path : string) (w : World) (raw : list CsvRow)
    (df : list Row) :
  fs w !! INPUT = Some (Csv raw) ->
  prepare raw = Ret df ->
  regular_frame df ->
  Forall (fun r => (0 <= amount r)%Q) df ->
  Exists (fun r => is_Some (Product_Category r) /\ (0 < amount r)%Q) df ->
  (run_sales_analysis file_path w).1 = Ret tt
  /\ saved (trace (run_sales_analysis file_path w).2) = saved (trace w) ++ CHARTS.
Proof.
  intros Hin Hp _ Hamt Hpos.
  assert (0 < series_sum (category_sales df))%Q as Htot.
  { rewrite category_sales_total.
    apply Exists_exists in Hpos as (r & Hr & [cat Hcat] & Hq0).
    apply Qlt_le_trans with (amount r); [done|].
    apply Qsum_ge_elem.
    - apply Forall_fmap, Forall_forall. intros r' [Hr' _]%list_elem_of_In%List.filter_In.
      rewrite Forall_forall in Hamt. by apply Hamt, list_elem_of_In.
    - apply list_elem_of_fmap. exists r. split; [done|].
      apply list_elem_of_In, List.filter_In. split; [by apply list_elem_of_In|].
      unfold has_category. by rewrite Hcat. }
  destruct (pie_accepts (category_sales df) (category_sales_nonneg df Hamt) Htot)
    as [wedges Hpie].
  rewrite (run_with_frame file_path w raw df Hin Hp).
  unfold pie_status, charts_of. rewrite Hpie. cbn [fst snd fs trace].
  split; [done|]. rewrite saved_app. by simpl.
Qed.

Lemma clean_input_completes_witness :
  fs (dir_with fixture_clean) !! INPUT = Some (Csv fixture_clean)
  /\ regular_frame (dropna (row_of <$> fixture_clean))
  /\ (run_sales_analysis "any.csv" (dir_with fixture_clean)).1 = Ret tt.
Proof.
  assert (regular_frame (dropna (row_of <$> fixture_clean))) as Hreg.
  { split; [left; by eexists|]. split.
    - unfold dates_in_range. each_row; intros ts [= <-]; split; by vm_compute.
    - split; [|each_row; by intros cat [= <-]].
      split; [each_row; eexists; reflexivity | reflexivity]. }
  split; [reflexivity|]. split; [exact Hreg|].
  apply (clean_input_completes "any.csv" (dir_with fixture_clean) fixture_clean
           (dropna (row_of <$> fixture_clean))).
  - reflexivity.
  - reflexivity.
  - exact Hreg.
  - repeat constructor; discriminate.
  - left. split; [by eexists | reflexivity].
Defined.

(** ** One entry per category *)

Section PerCategory.

Local Open Scope Q_scope.

Lemma key_lt_trans (a b c : string) : key_lt a b -> key_lt b c -> key_lt a c.
Proof.
  unfold key_lt. intros Hab Hbc.
  apply String_as_OT.cmp_lt. apply String_as_OT.cmp_lt in Hab, Hbc.
  by apply String_as_OT.lt_trans with b.
Qed.

Lemma key_lt_irrefl (a : string) : ~ key_lt a a.
Proof.
  unfold key_lt. intros H.
  pose proof (proj2 (String_as_OT.cmp_eq a a) eq_refl) as Heq.
  unfold String_as_OT.cmp in Heq. by rewrite Heq in H.
Qed.

Lemma compare_Gt_lt (a b : string) : String.compare a b = Gt -> key_lt b a.
Proof.
  unfold key_lt. intros H. rewrite String.compare_antisym, H. done.
Qed.

Lemma add_to_group_keys (c : string) (q : Q) (g : list (string * Q)) (c0 : string) :
  c0 ∈ (add_to_group c q g).*1 <-> c0 = c \/ c0 ∈ g.*1.
Proof.
  induction g as [|[c' s] g IH]; csimpl.
  - rewrite list_elem_of_singleton. split; [by left | intros [?|?%elem_of_nil]; done].
  - destruct (String.compare c c') eqn:Hcmp; csimpl.
    + apply String.compare_eq_iff in Hcmp as ->. rewrite !elem_of_cons. tauto.
    + rewrite !elem_of_cons. tauto.
    + rewrite !elem_of_cons, IH. tauto.
Qed.

Lemma add_to_group_sorted (c : string) (q : Q) (g : list (string * Q)) :
  StronglySorted key_lt g.*1 -> StronglySorted key_lt (add_to_group c q g).*1.
Proof.
  induction g as [|[c' s] g IH]; csimpl; intros Hs.
  - repeat constructor.
  - apply StronglySorted_inv in Hs as [Hs Hall].
    destruct (String.compare c c') eqn:Hcmp; csimpl.
    + by constructor.
    + constructor; [by constructor|].
      constructor; [done|]. eapply Forall_impl; [exact Hall|].
      intros k Hk. by apply key_lt_trans with c'.
    + constructor; [by apply IH|].
      apply Forall_forall. intros k [->|Hk]%add_to_group_keys.
      * by apply compare_Gt_lt.
      * rewrite Forall_forall in Hall. by apply Hall.
Qed.

Lemma sorted_keys_NoDup (ks : list string) : StronglySorted key_lt ks -> NoDup ks.
Proof.
  induction 1 as [|k ks Hs IH Hall]; constructor; [|done].
  intros Hin. rewrite Forall_forall in Hall. by apply (key_lt_irrefl k), Hall.
Qed.

Lemma entries_total_cons (c0 : string) (x : string * Q) (g : list (string * Q)) :
  entries_total c0 (x :: g)
  == (if String.eqb x.1 c0 then x.2 else 0) + entries_total c0 g.
Proof.
  unfold entries_total. simpl. destruct (String.eqb x.1 c0); csimpl.
  - apply Qsum_cons.
  - ring.
Qed.

Lemma add_to_group_entries (c : string) (q : Q) (g : list (string * Q)) (c0 : string) :
  entries_total c0 (add_to_group c q g)
  == entries_total c0 g + (if String.eqb c c0 then q else 0).
Proof.
  induction g as [|[c' s] g IH]; simpl.
  - rewrite entries_total_cons. simpl. ring.
  - destruct (String.compare c c') eqn:Hcmp.
    + apply String.compare_eq_iff in Hcmp as ->.
      rewrite !entries_total_cons. simpl. destruct (String.eqb c' c0); ring.
    + rewrite !entries_total_cons. simpl. ring.
    + rewrite !entries_total_cons, IH. simpl. ring.
Qed.

Lemma category_total_cons (c0 : string) (r : Row) (df : list Row) :
  category_total c0 (r :: df)
  == (if in_category c0 r then amount r else 0) + category_total c0 df.
Proof.
  unfold category_total. simpl. destruct (in_category c0 r); csimpl.
  - apply Qsum_cons.
  - ring.
Qed.

Lemma groupby_fold_invariant (df : list Row) (g : list (string * Q)) :
  StronglySorted key_lt g.*1 ->
  let g' := fold_left (fun g r =>
                         match Product_Category r with
                         | Some c => add_to_group c (amount r) g
                         | None => g
                         end) df g in
  StronglySorted key_lt g'.*1
  /\ (forall c0, c0 ∈ g'.*1 <-> c0 ∈ g.*1 \/ exists r, r ∈ df /\ Product_Category r = Some c0)
  /\ (forall c0, entries_total c0 g' == entries_total c0 g + category_total c0 df).
Proof.
  revert g. induction df as [|r df IH]; intros g Hs; simpl.
  - split; [done|]. split.
    + intros c0. split; [by left | intros [?|(r & ?%elem_of_nil & _)]; done].
    + intros c0. unfold category_total. simpl. rewrite Qsum_nil. ring.
  - destruct (Product_Category r) as [c|] eqn:Hc.
    + destruct (IH (add_to_group c (amount r) g) (add_to_group_sorted _ _ _ Hs))
        as (Hs' & Hk & Ht).
      split; [done|]. split.
      * intros c0. rewrite Hk, add_to_group_keys. split.
        -- intros [[->|?]|(r' & Hr' & Hc')]; [right | by left | right].
           ++ exists r. split; [left | done].
           ++ exists r'. split; [by right | done].
        -- intros [?|(r' & [->|Hr']%elem_of_cons & Hc')].
           ++ left. by right.
           ++ left. left. congruence.
           ++ right. by exists r'.
      * intros c0. rewrite Ht, add_to_group_entries, category_total_cons.
        unfold in_category. rewrite Hc. ring.
    + destruct (IH g Hs) as (Hs' & Hk & Ht).
      split; [done|]. split.
      * intros c0. rewrite Hk. split.
        -- intros [?|(r' & Hr' & Hc')]; [by left | right].
           exists r'. split; [by right | done].
        -- intros [?|(r' & [->|Hr']%elem_of_cons & Hc')]; [by left | congruence |].
           right. by exists r'.
      * intros c0. rewrite Ht, category_total_cons.
        unfold in_category. rewrite Hc. ring.
Qed.

Lemma entries_total_unique (g : list (string * Q)) (c : string) (v : Q) :
  NoDup g.*1 -> (c, v) ∈ g -> entries_total c g == v.
Proof.
  induction g as [|[c' s] g IH]; csimpl; intros Hnd Hin.
  - by apply elem_of_nil in Hin.
  - apply NoDup_cons in Hnd as [Hc' Hnd]. rewrite entries_total_cons. simpl.
    apply elem_of_cons in Hin as [[= -> ->]|Hin].
    + rewrite String.eqb_refl.
      assert (entries_total c' g == 0) as ->; [|ring].
      clear IH Hnd. unfold entries_total.
      replace (List.filter (fun x : string * Q => String.eqb x.1 c') g) with (@nil (string * Q));
        [reflexivity|].
      symmetry. induction g as [|[k u] g IHg]; simpl; [done|].
      csimpl in Hc'. apply not_elem_of_cons in Hc' as [Hne Hc'].
      destruct (String.eqb_spec k c') as [->|_]; [done | by apply IHg].
    + destruct (String.eqb_spec c' c) as [->|_].
      * exfalso. apply Hc'. apply list_elem_of_fmap. by exists (c, v).
      * rewrite (IH Hnd Hin). ring.
Qed.

Lemma insert_desc_Permutation (x : string * Q) (l : list (string * Q)) :
  insert_desc x l ≡ₚ x :: l.
Proof.
  induction l as [|y l IH]; simpl; [done|].
  destruct (Qltb x.2 y.2); [|done].
  rewrite IH. apply Permutation_swap.
Qed.

Lemma sort_values_desc_Permutation (s : list (string * Q)) :
  sort_values_desc s ≡ₚ s.
Proof.
  induction s as [|x s IH]; simpl; [done|].
  by rewrite insert_desc_Permutation, IH.
Qed.

End PerCategory.

(** X11: the category aggregate has exactly one entry for every category
    that occurs in a row of the frame, and no other entry; the value of the
    entry is the sum of the amounts of the rows of that category; sorting by
    value only reorders the grouped sums. *)
Theorem category_sales_one_entry_per_category (df : list Row) :
  NoDup (category_sales df).*1
  /\ (forall c, c ∈ (category_sales df).*1 <->
       exists r, r ∈ df /\ Product_Category r = Some c)
  /\ (forall c v, (c, v) ∈ category_sales df -> (v == category_total c df)%Q)
  /\ category_sales df ≡ₚ groupby_sum df.
Proof.
  destruct (groupby_fold_invariant df [] (SSorted_nil _)) as (Hs & Hk & Ht).
  cbv zeta in *. fold (groupby_sum df) in *.
  pose proof (sort_values_desc_Permutation (groupby_sum df)) as Hperm.
  fold (category_sales df) in Hperm.
  assert (NoDup (groupby_sum df).*1) as Hnd by (by apply sorted_keys_NoDup).
  split; [by rewrite Hperm|]. split; [|split; [|done]].
  - intros c. rewrite Hperm, Hk. split.
    + by intros [?%elem_of_nil|?].
    + by right.
  - intros c v Hin. rewrite Hperm in Hin.
    rewrite <- (entries_total_unique _ c v Hnd Hin), Ht.
    unfold entries_total. simpl. rewrite Qsum_nil. ring.
Qed.

(** ** One bucket, and the rows of the frame *)

Lemma foldr_min_const (k : Z) (ks : list Z) :
  Forall (eq k) ks -> foldr Z.min k ks = k.
Proof. induction 1 as [|k' ks <- _ IH]; simpl; [done|]. rewrite IH. lia. Qed.

Lemma foldr_max_const (k : Z) (ks : list Z) :
  Forall (eq k) ks -> foldr Z.max k ks = k.
Proof. induction 1 as [|k' ks <- _ IH]; simpl; [done|]. rewrite IH. lia. Qed.

(** X12: when all the rows of a frame that is not empty fall in one bucket
    (one day, one month or one quarter), with dates in the years 1678 to 2261
    and whole amounts whose absolute values add up to less than 2^53, the
    resampled series is that single bucket and its value is the grand
    total. *)
Theorem single_bucket_holds_total (key : Z -> Z) (df : list Row) (k : Z) :
  df <> [] ->
  dates_in_range df ->
  exact_amounts df ->
  Forall (fun r => exists ts, Date r = Some ts /\ key ts = k) df ->
  resample_sum key df = [(k, grand_total df)].
Proof.
  intros Hne _ _ Hall.
  assert (bucket_keys key df = (fun _ => k) <$> df) as Hkeys.
  { unfold bucket_keys. clear Hne.
    induction Hall as [|r df (ts & Hd & Hk) _ IH]; csimpl; [done|].
    by rewrite Hd, IH; csimpl; rewrite Hk. }
  assert (List.filter (in_bucket key k) df = df) as Hfil.
  { clear Hne Hkeys. induction Hall as [|r df (ts & Hd & Hk) _ IH]; simpl; [done|].
    unfold in_bucket at 1. by rewrite Hd, Hk, Z.eqb_refl, IH. }
  unfold resample_sum. rewrite Hkeys.
  destruct df as [|r df]; [done|]. csimpl.
  assert (Forall (eq k) ((fun _ : Row => k) <$> df)) as Hc
    by (apply Forall_fmap, Forall_forall; by intros).
  rewrite (foldr_min_const _ _ Hc), (foldr_max_const _ _ Hc).
  replace (k - k + 1) with 1 by lia.
  change (seqZ k 1) with [0 + k]. rewrite Z.add_0_l. csimpl.
  unfold bucket_sum. by rewrite Hfil.
Qed.

Lemma single_bucket_holds_total_witness :
  dropna (row_of <$> fixture_single None) <> []
  /\ monthly_sales (dropna (row_of <$> fixture_single None))
     = [(Calendar.month_key jan15, grand_total (dropna (row_of <$> fixture_single None)))].
Proof.
  split; [discriminate|].
  apply (single_bucket_holds_total Calendar.month_key
           (dropna (row_of <$> fixture_single None)) (Calendar.month_key jan15)).
  - discriminate.
  - unfold dates_in_range. each_row; intros ts [= <-]; split; by vm_compute.
  - split; [each_row; eexists; reflexivity | reflexivity].
  - repeat constructor. by exists jan15.
Defined.

Lemma dropna_row_of (raw : list CsvRow) :
  dropna (row_of <$> raw) = row_of <$> List.filter numeric_cell raw.
Proof.
  induction raw as [|c raw IH]; csimpl; [done|].
  unfold is_numeric at 1, row_of at 1, numeric_cell at 1. simpl.
  fold (dropna (row_of <$> raw)).
  destruct (csv_Total_Sales_INR c); csimpl; by rewrite IH.
Qed.

(** X13: the frame holds the rows of the file that have a numeric amount,
    each with its date, category and amount, in the order of the file; no row
    is added and no row with a numeric amount is lost. *)
Theorem frame_is_numeric_rows_in_order (raw : list CsvRow) (df : list Row) :
  prepare raw = Ret df ->
  df = row_of <$> List.filter numeric_cell raw
  /\ (length df <= length raw)%nat
  /\ (forallb numeric_cell raw = true -> length df = length raw).
Proof.
  intros [_ ->]%prepare_Ret. rewrite dropna_row_of, length_fmap.
  split; [done|]. split; [apply List.filter_length_le|].
  intros Hall. f_equal.
  induction raw as [|c raw IH]; simpl in *; [done|].
  apply andb_true_iff in Hall as [-> Hall]. by rewrite IH.
Qed.

Lemma frame_is_numeric_rows_in_order_witness :
  prepare fixture_two_categories = Ret frame_two_categories
  /\ frame_two_categories = row_of <$> List.filter numeric_cell fixture_two_categories
  /\ length frame_two_categories = 3%nat.
Proof.
  split; [reflexivity|].
  destruct (frame_is_numeric_rows_in_order fixture_two_categories frame_two_categories)
    as (Heq & _ & _); [reflexivity|].
  split; [exact Heq | reflexivity].
Defined.

(** ** The number format of the value axis and of the bar labels *)

Section NumberFormat.

Lemma uint_chars_not_comma (d : Decimal.uint) :
  forallb not_comma (Strings.String.list_ascii_of_string (NilEmpty.string_of_uint d)) = true.
Proof. induction d; simpl; done. Qed.

Lemma show_Z_not_comma (z : Z) :
  forallb not_comma (Strings.String.list_ascii_of_string (Format.show_Z z)) = true.
Proof.
  unfold Format.show_Z, NilZero.string_of_int, NilZero.string_of_uint.
  destruct (Z.to_int z) as [d|d]; destruct d; simpl; try done; apply uint_chars_not_comma.
Qed.

Lemma filter_all (A : Type) (f : A -> bool) (l : list A) :
  forallb f l = true -> List.filter f l = l.
Proof.
  induction l as [|x l IH]; simpl; [done|].
  intros [-> Hl]%andb_true_iff. by rewrite IH.
Qed.

Lemma group3_strip (n : nat) (l : list ascii) :
  (length l <= n)%nat -> List.filter not_comma (Format.group3 l) = List.filter not_comma l.
Proof.
  revert l. induction n as [|n IH]; intros l Hl.
  - by destruct l; [|simpl in Hl; lia].
  - destruct l as [|a [|b [|c [|d rest]]]]; try done.
    simpl in Hl.
    change (Format.group3 (a :: b :: c :: d :: rest))
      with ([a; b; c; ","%char] ++ Format.group3 (d :: rest)).
    change (a :: b :: c :: d :: rest) with ([a; b; c] ++ (d :: rest)).
    rewrite !List.filter_app, (IH (d :: rest)) by (simpl; lia).
    f_equal; simpl; by destruct (not_comma a), (not_comma b), (not_comma c).
Qed.

Lemma strip_thousands (digits : string) :
  forallb not_comma (Strings.String.list_ascii_of_string digits) = true ->
  strip_commas (Format.thousands digits) = digits.
Proof.
  intros Hd. unfold strip_commas, Format.thousands. fold not_comma.
  rewrite Strings.String.list_ascii_of_string_of_list_ascii.
  rewrite List.filter_rev, (group3_strip _ _ (le_n _)), List.filter_rev, List.rev_involutive.
  rewrite (filter_all _ _ _ Hd). apply Strings.String.string_of_list_ascii_of_string.
Qed.

Lemma list_ascii_of_string_app (s1 s2 : string) :
  Strings.String.list_ascii_of_string (s1 +:+ s2)
  = Strings.String.list_ascii_of_string s1 ++ Strings.String.list_ascii_of_string s2.
Proof. induction s1 as [|a s1 IH]; simpl; [done|]. by rewrite IH. Qed.

Lemma string_of_list_ascii_app (l1 l2 : list ascii) :
  Strings.String.string_of_list_ascii (l1 ++ l2)
  = Strings.String.string_of_list_ascii l1 +:+ Strings.String.string_of_list_ascii l2.
Proof. induction l1 as [|a l1 IH]; simpl; [done|]. by rewrite IH. Qed.

Lemma strip_signed_thousands (sign digits : string) :
  forallb not_comma (Strings.String.list_ascii_of_string sign) = true ->
  forallb not_comma (Strings.String.list_ascii_of_string digits) = true ->
  strip_commas (sign +:+ Format.thousands digits) = sign +:+ digits.
Proof.
  intros Hs Hd. rewrite <- (strip_thousands digits Hd) at 2.
  unfold strip_commas. fold not_comma.
  rewrite list_ascii_of_string_app, List.filter_app, (filter_all _ _ _ Hs).
  by rewrite string_of_list_ascii_app, Strings.String.string_of_list_ascii_of_string.
Qed.

Lemma read_show_Z (z : Z) : read_Z (Format.show_Z z) = Some z.
Proof.
  unfold read_Z, Format.show_Z. rewrite NilZero.isi.
  - simpl. by rewrite DecimalZ.of_to.
  - destruct z; simpl; try done. intros [= H]. by apply (Unsigned.to_uint_nonnil p).
  - destruct z; simpl; try done. intros [= H]. by apply (Unsigned.to_uint_nonnil p).
Qed.

Lemma read_minus_show_Z (z : Z) :
  0 <= z -> read_Z ("-" +:+ Format.show_Z z) = Some (- z).
Proof.
  intros Hz. unfold read_Z, Format.show_Z.
  destruct z as [|p|p]; [done| |lia].
  change ("-" +:+ NilZero.string_of_int (Z.to_int (Z.pos p)))
    with (NilZero.string_of_int (Z.to_int (Z.neg p))).
  rewrite NilZero.isi.
  - change (Some (Z.of_int (Z.to_int (Z.neg p))) = Some (- Z.pos p)).
    by rewrite DecimalZ.of_to.
  - done.
  - simpl. intros [= H]. by apply (Unsigned.to_uint_nonnil p).
Qed.

Local Open Scope Q_scope.

Lemma round_half_even_near (x : Q) :
  Qabs (inject_Z (Format.round_half_even x) - x) <= 1 # 2.
Proof.
  unfold Format.round_half_even.
  pose proof (Qfloor_le x) as Hlo. pose proof (Qlt_floor x) as Hhi.
  rewrite inject_Z_plus in Hhi. change (inject_Z 1) with 1 in Hhi.
  apply Qabs_Qle_condition.
  destruct (x - inject_Z (Qfloor x) ?= 1 # 2) eqn:Hc.
  - apply Qeq_alt in Hc. destruct (Z.even (Qfloor x)).
    + split; lra.
    + rewrite inject_Z_plus. change (inject_Z 1) with 1. split; lra.
  - apply Qlt_alt in Hc. split; lra.
  - apply Qgt_alt in Hc. rewrite inject_Z_plus. change (inject_Z 1) with 1. split; lra.
Qed.

Lemma round_half_even_nonneg (x : Q) : 0 <= x -> (0 <= Format.round_half_even x)%Z.
Proof.
  intros Hx. unfold Format.round_half_even.
  pose proof (Qfloor_resp_le 0 x Hx) as Hf. change (Qfloor 0) with 0%Z in Hf.
  destruct (x - inject_Z (Qfloor x) ?= 1 # 2); [destruct (Z.even (Qfloor x))| |]; lia.
Qed.

End NumberFormat.

(** X14: the label [f'{x:,.0f}'] of a value, with its thousands separators
    taken out, spells the integer nearest to the value (the nearest even one
    at a tie), negated for a negative value; that integer differs from the
    size of the value by at most one half. *)
Theorem comma_label_reads_back (q : Q) :
  read_Z (strip_commas (Format.fmt_comma_0f q))
  = Some (match (q ?= 0)%Q with
          | Lt => - Format.round_half_even (Qabs q)
          | _ => Format.round_half_even (Qabs q)
          end)
  /\ (Qabs (inject_Z (Format.round_half_even (Qabs q)) - Qabs q) <= 1 # 2)%Q.
Proof.
  split; [|apply round_half_even_near].
  unfold Format.fmt_comma_0f, Format.sign_of.
  set (n := Format.round_half_even (Qabs q)).
  assert (0 <= n) as Hn by (apply round_half_even_nonneg, Qabs_nonneg).
  pose proof (fun sign H => strip_signed_thousands sign _ H (show_Z_not_comma n)) as Hstrip.
  destruct (q ?= 0)%Q.
  - rewrite (Hstrip "" eq_refl). apply read_show_Z.
  - rewrite (Hstrip "-" eq_refl). by apply read_minus_show_Z.
  - rewrite (Hstrip "" eq_refl). apply read_show_Z.
Qed.

(** ** The percentages on the pie chart *)

Section PieLabels.

Local Open Scope Q_scope.

Lemma category_share_Fin (cs : list (string * Q)) :
  ~ series_sum cs == 0 ->
  category_share cs = (fun x => (x.1, Fin (x.2 / series_sum cs * 100))) <$> cs.
Proof.
  intros Hnz. unfold category_share. fold (series_sum cs).
  apply list_fmap_ext. intros _ [c v] _. simpl.
  unfold fdiv. by rewrite (Qeq_bool_false _ _ Hnz).
Qed.

Lemma mapM_wedge_labels (t : Q) (l : list (string * Q)) :
  t == 100 ->
  mapM (fun '(c, x) => pair c <$> wedge_label (Fin t) x)
       ((fun x : string * Q => (x.1, Fin x.2)) <$> l)
  = Some ((fun x => (x.1, Format.fmt_1f x.2 +:+ "%")) <$> l).
Proof.
  intros Ht.
  assert (Qeq_bool t 0 = false) as Ht0 by (apply Qeq_bool_false; rewrite Ht; discriminate).
  induction l as [|[c q] l IH]; csimpl; [done|].
  rewrite Ht0. csimpl.
  destruct (mapM _ (_ <$> l)) as [ws|]; [|done]. injection IH as ->. csimpl.
  rewrite (fmt_1f_comp (100 * (q / t)) q); [done|].
  rewrite Ht. field.
Qed.

End PieLabels.

(** X15: for at most a thousand categories whose totals are whole
    numbers, none negative, adding up to a positive amount below 2^53, and
    whose shares are each farther than a hundredth of a percent from the
    middle between two one-decimal values, the pie chart is drawn with one
    wedge per category, in the order of the category aggregate, and the
    percentage printed on a wedge is the category's share,
    [total / sum * 100], to one decimal. *)
Theorem pie_prints_the_shares (cs : list (string * Q)) :
  (length cs <= 1000)%nat ->
  Forall (fun x => whole x.2) cs ->
  (series_sum cs < EXACT_BOUND)%Q ->
  Forall (fun x => away_from_tie (x.2 / series_sum cs * 100)) cs ->
  Forall (fun x => (0 <= x.2)%Q) cs ->
  (0 < series_sum cs)%Q ->
  pie (category_share cs)
  = Ret ((fun x => (x.1, Format.fmt_1f (x.2 / series_sum cs * 100) +:+ "%")) <$> cs).
Proof.
  intros _ _ _ _ Hnn Hpos.
  assert (~ (series_sum cs == 0)%Q) as Hnz
    by (intros H; rewrite H in Hpos; by apply Qlt_irrefl in Hpos).
  destruct (pie_accepts cs Hnn Hpos) as [wedges Hw].
  pose proof (shares_total cs Hnz) as Htot.
  unfold pie in *.
  destruct (existsb is_negative (category_share cs).*2); [done|].
  destruct (fsum (category_share cs).*2) as [t| | |]; simpl in Htot; try done.
  rewrite (category_share_Fin cs Hnz).
  pose proof (mapM_wedge_labels t
                ((fun x : string * Q => (x.1, (x.2 / series_sum cs * 100)%Q)) <$> cs) Htot)
    as Hm.
  rewrite <- !list_fmap_compose in Hm. unfold compose in Hm. cbn [fst snd] in Hm.
  by rewrite Hm.
Qed.

Lemma pie_prints_the_shares_witness :
  (length (category_sales frame_two_categories) <= 1000)%nat
  /\ Forall (fun x => away_from_tie
                        (x.2 / series_sum (category_sales frame_two_categories) * 100))
       (category_sales frame_two_categories)
  /\ pie (category_share (category_sales frame_two_categories))
     = Ret [("A", "60.0%"); ("B", "40.0%")]%string.
Proof.
  assert (length (category_sales frame_two_categories) <= 1000)%nat as Hlen
    by (vm_compute; lia).
  assert (Forall (fun x => away_from_tie
                             (x.2 / series_sum (category_sales frame_two_categories) * 100))
            (category_sales frame_two_categories)) as Htie
    by (each_row; reflexivity).
  split; [exact Hlen|]. split; [exact Htie|].
  rewrite (pie_prints_the_shares (category_sales frame_two_categories) Hlen).
  - reflexivity.
  - each_row; eexists; reflexivity.
  - reflexivity.
  - exact Htie.
  - repeat constructor; discriminate.
  - reflexivity.
Defined.

(** ** What the rows without an amount leave behind *)










